(** * perdiem: location-to-tariff resolution and overlay pipeline (app.js)

    A shallow embedding of the JavaScript of [src/app.js]: the JSON values
    the services return, the coercions the code applies to them, the rate
    normaliser and deduplicator, the fetchers, and the pipeline that drives
    the map.  Exceptions are explicit ([result]); the network and the page
    are explicit state ([page], [M]). *)

From Stdlib Require Import ZArith Ascii String.
From stdpp Require Import base strings list gmap pretty.

Set Warnings "-register-all,-clear-no-such-hyp".

Open Scope string_scope.
Open Scope Z_scope.

(** ** Exceptions *)

(** The exceptions the code can meet.  [FetchFailed] is the rejection of
    [fetch] on a transport failure, [SyntaxError] the rejection of
    [res.json()] on a malformed body, [TypeError] a property read on
    [null]/[undefined], a call of a non-function, a failed conversion to a
    primitive or an iteration over a non-iterable, and [Error msg] is
    [new Error(msg)] thrown by the code itself. *)
Inductive error : Type :=
  | TypeError
  | SyntaxError
  | FetchFailed
  | Error (msg : string).

Inductive result (A : Type) : Type :=
  | Ok (a : A)
  | Throw (e : error).
Arguments Ok {A} a.
Arguments Throw {A} e.

Definition rbind {A B} (m : result A) (k : A → result B) : result B :=
  match m with
  | Ok a => k a
  | Throw e => Throw e
  end.

Global Instance result_ret : MRet result := λ A a, Ok a.
Global Instance result_bind : MBind result := λ A B k m, rbind m k.

Fixpoint rmapM {A B} (f : A → result B) (l : list A) : result (list B) :=
  match l with
  | [] => Ok []
  | x :: rest => y ← f x; ys ← rmapM f rest; Ok (y :: ys)
  end.

(** ** Numbers and values *)

(** The numbers of the model: the integers (whole-dollar amounts, list
    lengths) and the three special values.  The model is exact on the
    safe integers, where a double neither rounds nor prints an exponent;
    fractions are outside it.  [-0] is identified with [0]: no operation
    used by the code tells them apart ([===], truthiness and the
    conversion to a string agree on both). *)
Inductive number : Type :=
  | NaN
  | PosInf
  | NegInf
  | Fin (z : Z).

(** A value as [res.json()] yields it, or [undefined].  An object is the
    list of its own properties; [VObj] models an object after parsing, a
    property read finds the first entry of a key. *)
Inductive value : Type :=
  | VUndef
  | VNull
  | VBool (b : bool)
  | VNum (n : number)
  | VStr (s : string)
  | VArr (items : list value)
  | VObj (fields : list (string * value)).

Fixpoint assoc (k : string) (fields : list (string * value)) : option value :=
  match fields with
  | [] => None
  | (k', v) :: rest => if String.eqb k k' then Some v else assoc k rest
  end.

Definition has_key (k : string) (fields : list (string * value)) : bool :=
  match assoc k fields with Some _ => true | None => false end.

(** [Number::toString], radix 10. *)
Definition number_to_string (n : number) : string :=
  match n with
  | NaN => "NaN"
  | PosInf => "Infinity"
  | NegInf => "-Infinity"
  | Fin z => pretty z
  end.

(** [ToBoolean]. *)
Definition to_boolean (v : value) : bool :=
  match v with
  | VUndef | VNull => false
  | VBool b => b
  | VNum NaN => false
  | VNum (Fin 0) => false
  | VNum _ => true
  | VStr "" => false
  | VStr _ => true
  | VArr _ | VObj _ => true
  end.

Definition is_nullish (v : value) : bool :=
  match v with VUndef | VNull => true | _ => false end.

(** [a || b] on values. *)
Definition js_or (a b : value) : value := if to_boolean a then a else b.

(** [v.k] for the data fields the code reads ([rate], [meals], [months],
    [month], [value], [address], [postcode], [tags], [postal_code],
    [elements], [geometry], [geojson], [lat], [lon], [display_name],
    [length]); none of them but [length] is a built-in of arrays or
    strings.  Reading a property of [null] or [undefined] throws. *)
Definition get (v : value) (k : string) : result value :=
  match v with
  | VUndef | VNull => Throw TypeError
  | VObj fields => Ok (default VUndef (assoc k fields))
  | VArr items =>
      if String.eqb k "length" then Ok (VNum (Fin (Z.of_nat (length items))))
      else Ok VUndef
  | VStr s =>
      if String.eqb k "length" then Ok (VNum (Fin (Z.of_nat (String.length s))))
      else Ok VUndef
  | VBool _ | VNum _ => Ok VUndef
  end.

(** [v?.k]. *)
Definition opt_get (v : value) (k : string) : result value :=
  if is_nullish v then Ok VUndef else get v k.

(** [v[0]]. *)
Definition get0 (v : value) : result value :=
  match v with
  | VUndef | VNull => Throw TypeError
  | VArr items => Ok (default VUndef (head items))
  | VStr (String c _) => Ok (VStr (String c ""))
  | VStr "" => Ok VUndef
  | VObj fields => Ok (default VUndef (assoc "0" fields))
  | VBool _ | VNum _ => Ok VUndef
  end.

(** An element of [Array.prototype.join]: [null] and [undefined] give the
    empty text. *)
Definition join_item (f : value → result string) (x : value) : result string :=
  match x with
  | VUndef | VNull => Ok ""
  | _ => f x
  end.

(** [items.join(",")], [f] converting an element. *)
Fixpoint join_with (f : value → result string) (l : list value) : result string :=
  match l with
  | [] => Ok ""
  | x :: rest =>
      sx ← join_item f x;
      match rest with
      | [] => Ok sx
      | _ => sr ← join_with f rest; Ok (sx +:+ "," +:+ sr)
      end
  end.

(** [ToString].  An array is joined with commas; a plain object is
    ["[object Object]"] unless an own [toString] property (never callable
    in parsed JSON) hides the inherited method, in which case no
    conversion to a primitive exists and a TypeError is thrown. *)
Fixpoint to_string (v : value) : result string :=
  match v with
  | VUndef => Ok "undefined"
  | VNull => Ok "null"
  | VBool b => Ok (if b then "true" else "false")
  | VNum n => Ok (number_to_string n)
  | VStr s => Ok s
  | VArr items => join_with to_string items
  | VObj fields =>
      if has_key "toString" fields then Throw TypeError
      else Ok "[object Object]"
  end.

(** White space stripped by [StringToNumber] and by
    [String.prototype.trim] (tab, line feed, vertical tab, form feed,
    carriage return, space, no-break space). *)
Definition is_space (c : ascii) : bool :=
  let n := N_of_ascii c in
  bool_decide (n = 9 ∨ n = 10 ∨ n = 11 ∨ n = 12 ∨ n = 13 ∨ n = 32 ∨ n = 160)%N.

Fixpoint trim_left (s : string) : string :=
  match s with
  | String c rest => if is_space c then trim_left rest else s
  | "" => ""
  end.

Definition trim (s : string) : string :=
  String.rev (trim_left (String.rev (trim_left s))).

Definition digit_of (c : ascii) : option Z :=
  let n := N_of_ascii c in
  if bool_decide (48 ≤ n ≤ 57)%N then Some (Z.of_N n - 48) else None.

Fixpoint digits_from (acc : Z) (s : string) : option Z :=
  match s with
  | "" => Some acc
  | String c rest =>
      match digit_of c with
      | Some d => digits_from (10 * acc + d) rest
      | None => None
      end
  end.

Definition unsigned_literal (s : string) : number :=
  if String.eqb s "Infinity" then PosInf
  else match s with
       | "" => NaN
       | _ => match digits_from 0 s with Some z => Fin z | None => NaN end
       end.

Definition negate (n : number) : number :=
  match n with
  | NaN => NaN
  | PosInf => NegInf
  | NegInf => PosInf
  | Fin z => Fin (- z)
  end.

(** [StringToNumber] on the numbers of the model: optional white space, an
    optional sign, decimal digits or [Infinity]; the empty text is [0].
    The other numeric literals (a fraction, an exponent, a radix prefix)
    are not modelled and read as [NaN] here; no statement below depends
    on the number a text is read as. *)
Definition string_to_number (s : string) : number :=
  match trim s with
  | "" => Fin 0
  | String "+" rest => unsigned_literal rest
  | String "-" rest => negate (unsigned_literal rest)
  | t => unsigned_literal t
  end.

(** [ToNumber]. *)
Definition to_number (v : value) : result number :=
  match v with
  | VUndef => Ok NaN
  | VNull => Ok (Fin 0)
  | VBool b => Ok (Fin (if b then 1 else 0))
  | VNum n => Ok n
  | VStr s => Ok (string_to_number s)
  | VArr _ => s ← to_string v; Ok (string_to_number s)
  | VObj fields => if has_key "toString" fields then Throw TypeError else Ok NaN
  end.

Definition is_nan (n : number) : bool :=
  match n with NaN => true | _ => false end.

(** [a < b] on numbers other than [NaN]. *)
Definition num_ltb (a b : number) : bool :=
  match a, b with
  | NaN, _ | _, NaN => false
  | PosInf, _ => false
  | _, PosInf => true
  | _, NegInf => false
  | NegInf, _ => true
  | Fin x, Fin y => x <? y
  end.

(** [a === b] on numbers. *)
Definition num_strict_eq (a b : number) : bool :=
  match a, b with
  | PosInf, PosInf | NegInf, NegInf => true
  | Fin x, Fin y => x =? y
  | _, _ => false
  end.

Fixpoint lowest_from (lowest : number) (ns : list number) : number :=
  match ns with
  | [] => lowest
  | n :: rest =>
      if is_nan n then NaN
      else lowest_from (if num_ltb n lowest then n else lowest) rest
  end.

Fixpoint highest_from (highest : number) (ns : list number) : number :=
  match ns with
  | [] => highest
  | n :: rest =>
      if is_nan n then NaN
      else highest_from (if num_ltb highest n then n else highest) rest
  end.

(** [Math.min(...args)] and [Math.max(...args)]: every argument is
    converted first, in order; no argument gives [Infinity] and
    [-Infinity]. *)
Definition math_min (args : list value) : result number :=
  ns ← rmapM to_number args; Ok (lowest_from PosInf ns).

Definition math_max (args : list value) : result number :=
  ns ← rmapM to_number args; Ok (highest_from NegInf ns).

(** ** Rate normaliser *)

(** [{ lodging: ..., mie: ... }]. *)
Record quote : Type := Quote { lodging : value; mie : value }.

(** The body of the inner [forEach] of [normalizeRates], for one
    sub-record [r]. *)
Definition normalize_sub (r : value) : result quote :=
  meals ← get r "meals";
  months ← get r "months";
  lodging ←
    (if to_boolean months then
       month ← get months "month";
       match month with
       | VArr entries =>
           prices ← rmapM (λ m, get m "value") entries;
           min ← math_min prices;
           max ← math_max prices;
           Ok (if num_strict_eq min max then VNum min
               else VStr (number_to_string min +:+ "-" +:+ number_to_string max))
       | _ => Ok (VStr "N/A")
       end
     else Ok (VStr "N/A"));
  Ok (Quote lodging meals).

(** The body of the outer [forEach]: [mainItem.rate || []], then
    [subRates.forEach], which only an array has. *)
Definition normalize_main (mainItem : value) : result (list quote) :=
  rate ← get mainItem "rate";
  match js_or rate (VArr []) with
  | VArr subRates => rmapM normalize_sub subRates
  | _ => Throw TypeError
  end.

Definition normalizeRates (rawRates : value) : result (list quote) :=
  let list := match rawRates with VArr items => items | _ => [rawRates] end in
  groups ← rmapM normalize_main list;
  Ok (concat groups).

(** The key of [dedupeRates]:
    [`${r.lodging || 'N/A'}-${r.mie || 'N/A'}`]. *)
Definition quote_key (r : quote) : result string :=
  l ← to_string (js_or (lodging r) (VStr "N/A"));
  m ← to_string (js_or (mie r) (VStr "N/A"));
  Ok (l +:+ "-" +:+ m).

(** The [for ... of] loop of [dedupeRates], from the current [seen] set
    and [unique] list. *)
Fixpoint dedupe_loop (rates : list quote) (seen : gset string)
    (unique : list quote) : result (list quote) :=
  match rates with
  | [] => Ok unique
  | r :: rest =>
      key ← quote_key r;
      if decide (key ∈ seen) then dedupe_loop rest seen unique
      else dedupe_loop rest ({[key]} ∪ seen) (unique ++ [r])
  end.

Definition dedupeRates (rates : list quote) : result (list quote) :=
  dedupe_loop rates ∅ [].

(** ** Region candidates and shapes *)

(** [a === b].  Arrays and objects compare by identity, and two values
    read from different places of parsed responses are never the same
    object. *)
Definition strict_eq (a b : value) : bool :=
  match a, b with
  | VUndef, VUndef | VNull, VNull => true
  | VBool x, VBool y => bool_decide (x = y)
  | VNum x, VNum y => num_strict_eq x y
  | VStr x, VStr y => String.eqb x y
  | _, _ => false
  end.

(** SameValueZero, the comparison of [Set.prototype.has]: as [===], but
    [NaN] equals itself. *)
Definition same_value_zero (a b : value) : bool :=
  match a, b with
  | VNum NaN, VNum NaN => true
  | _, _ => strict_eq a b
  end.

(** [seen.has(code)], the set held as the list of its members. *)
Definition set_has (seen : list value) (code : value) : bool :=
  existsb (same_value_zero code) seen.

(** [{ postalCode, geometry }]; [geojson] is the property
    [toLeafletShape] looks for first ([undefined] when absent). *)
Record zone : Type := Zone { postalCode : value; geometry : value; geojson : value }.

(** What [for (const el of v)] iterates over: the items of an array, the
    characters of a string; nothing else that JSON yields is iterable. *)
Definition iterate (v : value) : result (list value) :=
  match v with
  | VArr items => Ok items
  | VStr s => Ok ((λ c, VStr (String c "")) <$> list_ascii_of_string s)
  | _ => Throw TypeError
  end.

(** The loop of [fetchSurroundingZips] over the elements, from the
    current [seen] set and [zones] list. *)
Fixpoint collect_zones (elements : list value) (targetZip : value)
    (seen : list value) (zones : list zone) : result (list zone) :=
  match elements with
  | [] => Ok zones
  | el :: rest =>
      tags ← get el "tags";
      code ← opt_get tags "postal_code";
      if negb (to_boolean code) || strict_eq code targetZip || set_has seen code
      then collect_zones rest targetZip seen zones
      else
        g ← get el "geometry";
        collect_zones rest targetZip (seen ++ [code])
          (zones ++ [Zone code g VUndef])
  end.

(** A parsed coordinate: the number [parseFloat] reads from [text].  The
    code only hands coordinates to the map and to request URLs. *)
Inductive coordinate : Type := ParsedFloat (text : string).

Definition parseFloat (v : value) : result coordinate :=
  s ← to_string v; Ok (ParsedFloat s).

(** What the map surface is asked to draw: [L.geoJSON(g)],
    [L.polygon(points)], [L.circleMarker(center)].  The map surface is an
    external collaborator: its constructors and methods are taken to
    return. *)
Inductive shape : Type :=
  | GeoJSON (g : value)
  | Polygon (points : list (value * value))
  | CircleMarker (center : coordinate * coordinate).

Definition toLeafletShape (z : zone) : result (option shape) :=
  if to_boolean (geojson z) then Ok (Some (GeoJSON (geojson z)))
  else if to_boolean (geometry z) then
    len ← get (geometry z) "length";
    if to_boolean len then
      match geometry z with
      | VArr pts =>
          points ← rmapM (λ pt, lat ← get pt "lat"; lon ← get pt "lon"; Ok (lat, lon)) pts;
          Ok (Some (Polygon points))
      | _ => Throw TypeError
      end
    else Ok None
  else Ok None.

(** ** The services and the page *)

(** The requests the code sends: forward search and reverse lookup of the
    geocoding service, the boundary service, the rate service (the
    worker) and the regional index, each with the values interpolated
    into its URL. *)
Inductive request : Type :=
  | SearchPlace (query : string)
  | ReverseLookup (lat lon : string)
  | BoundaryOf (zip : string)
  | RatesOf (zip year : string)
  | PostalAreasAround (radiusMeters : Z) (lat lon : coordinate).

(** A response: [res.ok], and the value [res.json()] resolves to, [None]
    when the body is not JSON. *)
Record response : Type := Response { ok : bool; body : option value }.

(** What [fetch] settles to: a rejection (transport failure) or a
    response. *)
Inductive reply : Type :=
  | Rejected
  | Reply (res : response).

Definition network : Type := request → reply.

Inductive status_text : Type :=
  | Text (s : string)
  | MessageOf (e : error).

(** The status element after [updateStatus(message, isError, isLoading)]. *)
Record status : Type :=
  Status { message : status_text; isError : bool; isLoading : bool }.

(** What a click on a layer runs: [showPopup(..., zip)] on the target,
    [fetchPerDiem(zone.postalCode)] and [bindPopup] on a neighbour. *)
Inductive handler : Type :=
  | ShowPopup (zip : value)
  | BindPopup (zip : value).

(** A layer on the map: its shape, its stroke colour and its click
    handler. *)
Record layer : Type :=
  Layer { drawn : shape; color : string; on_click : option handler }.

Inductive view : Type :=
  | SetView (center : coordinate * coordinate) (zoom : Z)
  | FitBounds (bounds : shape).

(** The page: the map view, [targetLayer], the layers of
    [surroundingLayer], the status element, the rate panel and its list,
    the year selector when the page has one, and the requests sent so
    far. *)
Record page : Type := Page {
  mapView : view;
  targetLayer : option layer;
  surroundingLayer : list layer;
  statusEl : status;
  ratePanel : bool;
  rateList : list string;
  yearSelect : option string;
  sent : list request
}.

(** A computation on the page that returns or throws; what it did to the
    page before a throw stays done. *)
Definition M (A : Type) : Type := page → result A * page.

Definition m_ret {A} (a : A) : M A := λ p, (Ok a, p).

Definition m_bind {A B} (m : M A) (k : A → M B) : M B :=
  λ p, match m p with
       | (Ok a, p') => k a p'
       | (Throw e, p') => (Throw e, p')
       end.

Global Instance M_ret : MRet M := @m_ret.
Global Instance M_bind : MBind M := λ A B k m, m_bind m k.

Definition lift {A} (r : result A) : M A := λ p, (r, p).

Definition throw {A} (e : error) : M A := lift (Throw e).

(** [try { body } catch (e) { recover e }]. *)
Definition try_catch {A} (body : M A) (recover : error → M A) : M A :=
  λ p, match body p with
       | (Ok a, p') => (Ok a, p')
       | (Throw e, p') => recover e p'
       end.

Definition modify (f : page → page) : M unit := λ p, (Ok (), f p).

Definition set_status (s : status) (p : page) : page :=
  Page (mapView p) (targetLayer p) (surroundingLayer p) s
       (ratePanel p) (rateList p) (yearSelect p) (sent p).

Definition set_target (l : option layer) (p : page) : page :=
  Page (mapView p) l (surroundingLayer p) (statusEl p)
       (ratePanel p) (rateList p) (yearSelect p) (sent p).

Definition set_surrounding (ls : list layer) (p : page) : page :=
  Page (mapView p) (targetLayer p) ls (statusEl p)
       (ratePanel p) (rateList p) (yearSelect p) (sent p).

Definition set_view (v : view) (p : page) : page :=
  Page v (targetLayer p) (surroundingLayer p) (statusEl p)
       (ratePanel p) (rateList p) (yearSelect p) (sent p).

Definition set_rates (shown : bool) (items : list string) (p : page) : page :=
  Page (mapView p) (targetLayer p) (surroundingLayer p) (statusEl p)
       shown items (yearSelect p) (sent p).

Definition log_request (r : request) (p : page) : page :=
  Page (mapView p) (targetLayer p) (surroundingLayer p) (statusEl p)
       (ratePanel p) (rateList p) (yearSelect p) (sent p ++ [r]).

(** [await fetch(url)]. *)
Definition fetch (net : network) (r : request) : M response :=
  λ p, (match net r with
        | Rejected => Throw FetchFailed
        | Reply res => Ok res
        end, log_request r p).

(** [await res.json()]. *)
Definition json (res : response) : M value :=
  match body res with
  | Some v => mret v
  | None => throw SyntaxError
  end.

Definition updateStatus (message : status_text) (isError isLoading : bool) : M unit :=
  modify (set_status (Status message isError isLoading)).

Definition clearLayers : M unit :=
  modify (λ p, set_surrounding [] (set_target None p)).

(** ** Fetchers *)

Definition geocode (net : network) (query : string) : M value :=
  res ← fetch net (SearchPlace query);
  if negb (ok res) then throw (Error "Geocoding failed. Please try again later.")
  else data ← json res; lift (get0 data).

Definition resolveZip (net : network) (place : value) : M value :=
  address ← lift (get place "address");
  postcode ← lift (if to_boolean address then get address "postcode" else Ok VUndef);
  if to_boolean address && to_boolean postcode then mret postcode
  else
    lat ← lift (v ← get place "lat"; to_string v);
    lon ← lift (v ← get place "lon"; to_string v);
    res ← fetch net (ReverseLookup lat lon);
    if negb (ok res) then mret VNull
    else
      data ← json res;
      address' ← lift (get data "address");
      postcode' ← lift (opt_get address' "postcode");
      mret (js_or postcode' VNull).

Definition boundary_error : error :=
  Error "Could not load boundary for the target Zip Code.".

Definition fetchZipBoundary (net : network) (zip : value) : M value :=
  z ← lift (to_string zip);
  res ← fetch net (BoundaryOf z);
  if negb (ok res) then throw boundary_error
  else
    data ← json res;
    first ← lift (get0 data);
    g ← lift (opt_get first "geojson");
    mret (js_or g VNull).

(** [data?.rates || data?.rate || []]. *)
Definition raw_rates (data : value) : result value :=
  rates ← opt_get data "rates";
  if to_boolean rates then Ok rates
  else rate ← opt_get data "rate"; Ok (js_or rate (VArr [])).

Definition fetchPerDiem (net : network) (zip : value) : M (list quote) :=
  year ← (λ p, (Ok (default "2025" (yearSelect p)), p));
  z ← lift (to_string zip);
  try_catch
    (res ← fetch net (RatesOf z year);
     if negb (ok res) then mret []
     else
       data ← json res;
       rawRates ← lift (raw_rates data);
       lift (normalizeRates rawRates))
    (λ _, mret []).

Definition fetchSurroundingZips (net : network)
    (center : coordinate * coordinate) (targetZip : value) : M (list zone) :=
  res ← fetch net (PostalAreasAround 15000 (fst center) (snd center));
  if negb (ok res) then mret []
  else
    data ← json res;
    elements ← lift (get data "elements");
    els ← lift (iterate (js_or elements (VArr [])));
    lift (collect_zones els targetZip [] []).

(** ** Rendering and the pipeline *)

Definition rate_line (zip : value) (r : quote) : result string :=
  z ← to_string zip;
  l ← to_string (lodging r);
  m ← to_string (mie r);
  Ok ("Zip " +:+ z +:+ ": Lodging $" +:+ l +:+ " / M&IE $" +:+ m).

Definition append_rate (item : string) : M unit :=
  modify (λ p, set_rates (ratePanel p) (rateList p ++ [item]) p).

Fixpoint for_each {A} (f : A → M unit) (l : list A) : M unit :=
  match l with
  | [] => mret ()
  | x :: rest => _ ← f x; for_each f rest
  end.

Definition displayRates (zip : value) (rates : list quote) : M unit :=
  _ ← modify (set_rates true []);
  unique ← lift (dedupeRates rates);
  match unique with
  | [] => modify (set_rates true ["No per diem data for this zip."])
  | _ => for_each (λ r, item ← lift (rate_line zip r); append_rate item) unique
  end.

Definition drawTarget (geojson : value) (fallbackCenter : coordinate * coordinate)
    (zip : value) : M unit :=
  if to_boolean geojson then
    _ ← modify (set_target (Some (Layer (GeoJSON geojson) "#2563eb" (Some (ShowPopup zip)))));
    modify (set_view (FitBounds (GeoJSON geojson)))
  else
    modify (set_target (Some (Layer (CircleMarker fallbackCenter) "#2563eb" (Some (ShowPopup zip))))).

(** The callback of [neighbors.forEach] in [renderSurrounding]: an async
    function without an [await], so it runs to its end at once and what
    it throws rejects a promise nobody reads. *)
Definition render_zone (z : zone) : M unit :=
  try_catch
    (built ← lift (toLeafletShape z);
     match built with
     | None => mret ()
     | Some s =>
         modify (λ p, set_surrounding
           (surroundingLayer p ++ [Layer s "#16a34a" (Some (BindPopup (postalCode z)))]) p)
     end)
    (λ _, mret ()).

Definition renderSurrounding (net : network) (center : coordinate * coordinate)
    (targetZip : value) : M unit :=
  _ ← updateStatus (Text "Loading surrounding Zip Codes...") false true;
  neighbors ← fetchSurroundingZips net center targetZip;
  match neighbors with
  | [] => updateStatus (Text "No nearby postal boundaries found. Showing target only.") false false
  | _ => for_each render_zone neighbors
  end.

Definition ready_status : status :=
  Status (Text "Click any shaded area to see its per diem rate.") false false.

Definition updateView (net : network) (lat lon : coordinate) (zip label : value) : M unit :=
  let center := (lat, lon) in
  _ ← modify (set_view (SetView center 11));
  l ← lift (to_string label);
  z ← lift (to_string zip);
  _ ← updateStatus (Text ("Centering map on " +:+ l +:+ " (Zip " +:+ z +:+ ")...")) false true;
  targetGeojson ← fetchZipBoundary net zip;
  _ ← drawTarget targetGeojson center zip;
  mainRates ← fetchPerDiem net zip;
  _ ← displayRates zip mainRates;
  _ ← renderSurrounding net center zip;
  updateStatus (Text "Click any shaded area to see its per diem rate.") false false.

(** The body of the [try] of the search handler. *)
Definition search_run (net : network) (query : string) : M unit :=
  place ← geocode net query;
  if negb (to_boolean place) then throw (Error "No matching location found.")
  else
    lat ← lift (v ← get place "lat"; parseFloat v);
    lon ← lift (v ← get place "lon"; parseFloat v);
    targetZip ← resolveZip net place;
    if negb (to_boolean targetZip)
    then throw (Error "Could not determine a Zip Code for this location.")
    else
      label ← lift (get place "display_name");
      updateView net lat lon targetZip label.

(** The submit handler of the search form, on the text of the input. *)
Definition search_submit (net : network) (input : string) : M unit :=
  let query := trim input in
  if String.eqb query "" then mret ()
  else
    _ ← clearLayers;
    _ ← updateStatus (Text "Searching for location...") false true;
    _ ← modify (set_rates false []);
    try_catch (search_run net query)
      (λ err, updateStatus (MessageOf err) true false).

(** The page when it is loaded: the map over the United States, no
    layer, an empty status. *)
Definition initial_page (year : option string) : page :=
  Page (SetView (ParsedFloat "39.5", ParsedFloat "-98.35") 4) None []
       (Status (Text "") false false) false [] year [].

(** ** Properties the statements speak of *)

(** The distinct texts of a list, each at its first occurrence. *)
Fixpoint first_seen (ks : list string) : list string :=
  match ks with
  | [] => []
  | k :: rest => k :: filter (λ k', k' ≠ k) (first_seen rest)
  end.

(** The pair the specification names as the deduplication key: the two
    fields, a missing one replaced by the marker ["N/A"]. *)
Definition or_marker (v : value) : value :=
  match v with VUndef => VStr "N/A" | _ => v end.

Definition normalized_pair (r : quote) : value * value :=
  (or_marker (lodging r), or_marker (mie r)).

(** A value has a conversion to a primitive: no object in it, reached
    through arrays, hides [toString]. *)
Fixpoint convertible (v : value) : bool :=
  match v with
  | VArr items => forallb convertible items
  | VObj fields => negb (has_key "toString" fields)
  | _ => true
  end.

(** The entries of a sub-record's monthly breakdown, when
    [r.months && r.months.month && Array.isArray(r.months.month)]. *)
Definition breakdown (r : value) : option (list value) :=
  match get r "months" with
  | Ok months =>
      if to_boolean months then
        match get months "month" with
        | Ok (VArr entries) => Some entries
        | _ => None
        end
      else None
  | Throw _ => None
  end.

Definition field (v : value) (k : string) : value :=
  match get v k with Ok x => x | Throw _ => VUndef end.

Definition entry_ok (m : value) : bool :=
  negb (is_nullish m) && convertible (field m "value").

Definition sub_ok (r : value) : bool :=
  negb (is_nullish r) && forallb entry_ok (default [] (breakdown r)).

Definition main_ok (mainItem : value) : bool :=
  negb (is_nullish mainItem) &&
  match js_or (field mainItem "rate") (VArr []) with
  | VArr subRates => forallb sub_ok subRates
  | _ => false
  end.

(** The payloads [normalizeRates] accepts. *)
Definition well_shaped (rawRates : value) : bool :=
  forallb main_ok (match rawRates with VArr items => items | _ => [rawRates] end).

(** The key of a quote as a text, for quotes whose key exists. *)
Definition key_of (r : quote) : string :=
  match quote_key r with Ok k => k | Throw _ => "" end.

(** The quotes of [rates] whose key is neither in [seen] nor met earlier
    in [rates]: what the loop of [dedupeRates] appends to [unique]. *)
Fixpoint fresh (seen : gset string) (rates : list quote) : list quote :=
  match rates with
  | [] => []
  | r :: rest =>
      if decide (key_of r ∈ seen) then fresh seen rest
      else r :: fresh ({[key_of r]} ∪ seen) rest
  end.

(** [el.tags?.postal_code] of an element that is neither [null] nor
    [undefined]. *)
Definition postal_code_of (el : value) : value :=
  field (field el "tags") "postal_code".

(** ** Sample payloads and services *)

(** [dollars z] is the number [z]. *)
Definition dollars (z : Z) : value := VNum (Fin z).

(** [{ meals, months: { month: [{ value }, ...] } }]. *)
Definition sub_record (meals : value) (values : list value) : value :=
  VObj [("meals", meals);
        ("months", VObj [("month", VArr ((λ v, VObj [("value", v)]) <$> values))])].

(** [[{ rate: [sub] }]]. *)
Definition payload_of (sub : value) : value :=
  VArr [VObj [("rate", VArr [sub])]].

(** A place the geocoder returns with a postcode in its address. *)
Definition austin : value :=
  VObj [("lat", VStr "30.27"); ("lon", VStr "-97.74");
        ("display_name", VStr "Austin, Texas");
        ("address", VObj [("city", VStr "Austin"); ("postcode", VStr "78701")])].

(** The same place without an address. *)
Definition austin_bare : value :=
  VObj [("lat", VStr "30.27"); ("lon", VStr "-97.74");
        ("display_name", VStr "Austin, Texas")].

(** Services that all answer, except the regional index, which answers
    with [neighbours]. *)
Definition services (neighbours : reply) : network := λ r,
  match r with
  | SearchPlace _ => Reply (Response true (Some (VArr [austin])))
  | ReverseLookup _ _ =>
      Reply (Response true (Some (VObj [("address", VObj [("postcode", VStr "78701")])])))
  | BoundaryOf _ => Reply (Response true (Some (VArr [])))
  | RatesOf _ _ =>
      Reply (Response true
        (Some (VObj [("rates", payload_of (sub_record (dollars 79) [dollars 150; dollars 150]))])))
  | PostalAreasAround _ _ _ => neighbours
  end.

Definition element (code geometry : value) : value :=
  VObj [("tags", VObj [("postal_code", code)]); ("geometry", geometry)].

(** The zones the loop of [fetchSurroundingZips] appends while it runs
    over elements none of which is [null] or [undefined]. *)
Fixpoint kept (elements : list value) (targetZip : value) (seen : list value) : list zone :=
  match elements with
  | [] => []
  | el :: rest =>
      let code := postal_code_of el in
      if negb (to_boolean code) || strict_eq code targetZip || set_has seen code
      then kept rest targetZip seen
      else Zone code (field el "geometry") VUndef :: kept rest targetZip (seen ++ [code])
  end.

(** A computation leaves [targetLayer] as it found it. *)
Definition keeps_target {A} (m : M A) : Prop :=
  ∀ p, targetLayer (snd (m p)) = targetLayer p.

(** The postcode a place already carries:
    [place.address && place.address.postcode]. *)
Definition carried_postcode (place : value) : option value :=
  let address := field place "address" in
  let postcode := field address "postcode" in
  if to_boolean address && to_boolean postcode then Some postcode else None.

(** The point marker [drawTarget] falls back to. *)
Definition marker_at (center : coordinate * coordinate) (zip : value) : layer :=
  Layer (CircleMarker center) "#2563eb" (Some (ShowPopup zip)).

(** A conversion that returns exactly on the inputs [good] accepts and
    throws a TypeError on the others. *)
Definition decided_by {A B} (good : A → bool) (f : A → result B) (x : A) : Prop :=
  if good x then ∃ y, f x = Ok y else f x = Throw TypeError.

(** What lets a code into the result of [fetchSurroundingZips]: truthy,
    not the target, not yet seen. *)
Definition eligible (targetZip : value) (seen : list value) (code : value) : Prop :=
  to_boolean code = true ∧ strict_eq code targetZip = false ∧ set_has seen code = false.

(** ** Popups and clicks *)

(** [`<div>Lodging $${r.lodging} | M&IE $${r.mie}</div>`]. *)
Definition popup_line (r : quote) : result string :=
  l ← to_string (lodging r);
  m ← to_string (mie r);
  Ok ("<div>Lodging $" +:+ l +:+ " | M&IE $" +:+ m +:+ "</div>").

Definition buildPopupContent (zip : value) (rates : list quote) : result string :=
  unique ← dedupeRates rates;
  match unique with
  | [] =>
      z ← to_string zip;
      Ok ("<strong>Zip " +:+ z +:+ "</strong><br>No per diem data.")
  | _ =>
      lines ← rmapM popup_line unique;
      z ← to_string zip;
      Ok ("<strong>Zip " +:+ z +:+ "</strong><br>" +:+ String.concat "" lines)
  end.





(** ** Further properties the statements speak of *)

(** The sub-records [normalizeRates] walks through, in its order: the
    [rate] lists of the top-level records, one after the other. *)
Definition rate_list (mainItem : value) : list value :=
  match js_or (field mainItem "rate") (VArr []) with
  | VArr subRates => subRates
  | _ => []
  end.

Definition sub_records (rawRates : value) : list value :=
  concat (rate_list <$> match rawRates with VArr items => items | _ => [rawRates] end).

(** The lodging of a quote is a number or a text. *)
Definition number_or_text (v : value) : Prop :=
  (∃ n, v = VNum n) ∨ (∃ s, v = VStr s).

(** The layer the callback of [renderSurrounding] adds for a zone, when
    it adds one. *)
Definition zone_layer (z : zone) : option layer :=
  match toLeafletShape z with
  | Ok (Some s) => Some (Layer s "#16a34a" (Some (BindPopup (postalCode z))))
  | _ => None
  end.

(** A computation leaves a part of the page as it found it. *)
Definition preserves {A B} (part : page → B) (m : M A) : Prop :=
  ∀ p, part (snd (m p)) = part p.

Definition is_rate_request (r : request) : bool :=
  match r with RatesOf _ _ => true | _ => false end.

(** A computation only adds requests to the log: at most [rates] rate
    requests among at most [total] requests. *)
Definition sends_within {A} (rates total : nat) (m : M A) : Prop :=
  ∀ p, ∃ l, sent (snd (m p)) = (sent p ++ l)%list ∧
            (length (filter (λ r, is_rate_request r = true) l) ≤ rates)%nat ∧
            (length l ≤ total)%nat.


(** The page a search that fails before any overlay is drawn ends on:
    the layers cleared, the rate panel hidden and empty, the error shown
    as the status, and [requests] added to the log. *)
Definition cleared_with (e : error) (requests : list request) (p : page) : page :=
  Page (mapView p) None [] (Status (MessageOf e) true false) false []
       (yearSelect p) (sent p ++ requests).

(** * Verification *)

(** ** The exception monad *)

Lemma rbind_ok {A B} (a : A) (k : A → result B) : (Ok a ≫= k) = k a.
Proof. reflexivity. Qed.

Ltac rsimpl := cbn [mbind result_bind rbind mret result_ret].
Tactic Notation "rsimpl" "in" hyp(H) :=
  cbn [mbind result_bind rbind mret result_ret] in H.

Lemma decided_by_true {A B} (good : A → bool) (f : A → result B) x :
  decided_by good f x → good x = true → ∃ y, f x = Ok y.
Proof. unfold decided_by. intros H Hg. by rewrite Hg in H. Qed.

Lemma rmapM_decided {A B} (good : A → bool) (f : A → result B) (l : list A) :
  Forall (decided_by good f) l → decided_by (forallb good) (rmapM f) l.
Proof.
  unfold decided_by at 2.
  induction 1 as [|x l Hx _ IH]; simpl; [eauto|].
  unfold decided_by in Hx.
  destruct (good x); simpl.
  - destruct Hx as [y ->]. rewrite rbind_ok.
    destruct (forallb good l).
    + destruct IH as [ys ->]. eauto.
    + by rewrite IH.
  - by rewrite Hx.
Qed.

(** ** Values *)

Lemma value_ind_nested (P : value → Prop) :
  P VUndef → P VNull → (∀ b, P (VBool b)) → (∀ n, P (VNum n)) →
  (∀ s, P (VStr s)) → (∀ items, Forall P items → P (VArr items)) →
  (∀ fields, P (VObj fields)) → ∀ v, P v.
Proof.
  intros Hu Hn Hb Hnum Hs Ha Ho.
  fix IH 1.
  intros [| |b|n|s|items|fields];
    [exact Hu | exact Hn | apply Hb | apply Hnum | apply Hs | apply Ha | apply Ho].
  exact ((fix all (l : list value) : Forall P l :=
            match l with
            | [] => List.Forall_nil P
            | x :: l' => List.Forall_cons P x l' (IH x) (all l')
            end) items).
Qed.

Lemma get_non_nullish (v : value) (k : string) :
  is_nullish v = false → get v k = Ok (field v k).
Proof.
  unfold field.
  destruct v; simpl; try discriminate; intros _; try reflexivity;
    by destruct (String.eqb k "length").
Qed.

Lemma get_nullish (v : value) (k : string) :
  is_nullish v = true → get v k = Throw TypeError.
Proof. by destruct v. Qed.

Lemma truthy_not_nullish (v : value) : to_boolean v = true → is_nullish v = false.
Proof. by destruct v. Qed.

Lemma join_with_decided (items : list value) :
  Forall (decided_by convertible to_string) items →
  decided_by (forallb convertible) (join_with to_string) items.
Proof.
  unfold decided_by at 2.
  induction 1 as [|x l Hx _ IH]; simpl; [eauto|].
  assert (Hitem : decided_by convertible (join_item to_string) x).
  { unfold decided_by in *. destruct x; simpl in *; eauto. }
  unfold decided_by in Hitem.
  destruct (convertible x); simpl.
  - destruct Hitem as [sx ->]. rewrite rbind_ok.
    destruct l as [|x' l']; [simpl; eauto|].
    destruct (forallb convertible (x' :: l')).
    + destruct IH as [sr ->]. eauto.
    + by rewrite IH.
  - by rewrite Hitem.
Qed.

Lemma to_string_decided (v : value) : decided_by convertible to_string v.
Proof.
  induction v as [| | | | |items IH|fields] using value_ind_nested;
    unfold decided_by; simpl; eauto.
  - apply (join_with_decided items IH).
  - destruct (has_key "toString" fields); simpl; eauto.
Qed.

Lemma to_number_decided (v : value) : decided_by convertible to_number v.
Proof.
  pose proof (to_string_decided v) as Hs.
  unfold decided_by in *.
  destruct v as [| | | | |items|fields]; simpl in *; eauto.
  - destruct (forallb convertible items).
    + destruct Hs as [s ->]. eauto.
    + by rewrite Hs.
  - destruct (has_key "toString" fields); simpl; eauto.
Qed.

Lemma math_min_decided (args : list value) :
  decided_by (forallb convertible) math_min args.
Proof.
  pose proof (rmapM_decided convertible to_number args) as H.
  unfold decided_by in *. unfold math_min.
  destruct (forallb convertible args).
  - destruct H as [ns ->]; [|eauto]. apply Forall_forall. intros; apply to_number_decided.
  - rewrite H; [done|]. apply Forall_forall. intros; apply to_number_decided.
Qed.

Lemma math_max_decided (args : list value) :
  decided_by (forallb convertible) math_max args.
Proof.
  pose proof (rmapM_decided convertible to_number args) as H.
  unfold decided_by in *. unfold math_max.
  destruct (forallb convertible args).
  - destruct H as [ns ->]; [|eauto]. apply Forall_forall. intros; apply to_number_decided.
  - rewrite H; [done|]. apply Forall_forall. intros; apply to_number_decided.
Qed.

(** ** The rate normaliser *)

Lemma rmapM_get_value (entries : list value) :
  if forallb (λ m, negb (is_nullish m)) entries
  then rmapM (λ m, get m "value") entries = Ok ((λ m, field m "value") <$> entries)
  else rmapM (λ m, get m "value") entries = Throw TypeError.
Proof.
  induction entries as [|m l IH]; simpl; [done|].
  destruct (is_nullish m) eqn:Hm; simpl.
  - by rewrite get_nullish.
  - rewrite get_non_nullish by done. rewrite rbind_ok.
    destruct (forallb _ l); by rewrite IH.
Qed.

Lemma forallb_entry_ok (entries : list value) :
  forallb entry_ok entries =
  forallb (λ m, negb (is_nullish m)) entries &&
  forallb convertible ((λ m, field m "value") <$> entries).
Proof.
  induction entries as [|m l IH]; simpl; [done|].
  rewrite IH. unfold entry_ok.
  destruct (is_nullish m), (convertible (field m "value")),
    (forallb (λ m, negb (is_nullish m)) l); simpl; auto.
Qed.

Lemma normalize_sub_nullish (r : value) :
  is_nullish r = true → normalize_sub r = Throw TypeError.
Proof. intros H. unfold normalize_sub. by rewrite (get_nullish r "meals"). Qed.

Lemma normalize_sub_no_breakdown (r : value) :
  is_nullish r = false → breakdown r = None →
  normalize_sub r = Ok (Quote (VStr "N/A") (field r "meals")).
Proof.
  intros Hr. unfold breakdown, normalize_sub.
  rewrite (get_non_nullish r "meals"), (get_non_nullish r "months") by done. rsimpl.
  destruct (to_boolean (field r "months")) eqn:Hm; [|done].
  rewrite get_non_nullish by by apply truthy_not_nullish.
  rsimpl.
  destruct (field (field r "months") "month"); intros H; try discriminate H; reflexivity.
Qed.

Lemma normalize_sub_breakdown (r : value) (entries : list value) :
  is_nullish r = false → breakdown r = Some entries →
  normalize_sub r =
    (prices ← rmapM (λ m, get m "value") entries;
     min ← math_min prices;
     max ← math_max prices;
     Ok (Quote (if num_strict_eq min max then VNum min
                else VStr (number_to_string min +:+ "-" +:+ number_to_string max))
               (field r "meals"))).
Proof.
  intros Hr. unfold breakdown, normalize_sub.
  rewrite (get_non_nullish r "meals"), (get_non_nullish r "months") by done. rsimpl.
  destruct (to_boolean (field r "months")) eqn:Hm; [|done].
  rewrite get_non_nullish by by apply truthy_not_nullish.
  rsimpl.
  destruct (field (field r "months") "month"); try done.
  intros [= ->].
  destruct (rmapM _ entries) as [prices|e]; [|done]. rsimpl.
  destruct (math_min prices) as [lo|e]; [|done]. rsimpl.
  by destruct (math_max prices) as [hi|e].
Qed.

Lemma normalize_sub_decided (r : value) : decided_by sub_ok normalize_sub r.
Proof.
  unfold decided_by, sub_ok.
  destruct (is_nullish r) eqn:Hr; simpl.
  { by apply normalize_sub_nullish. }
  destruct (breakdown r) as [entries|] eqn:Hb; simpl.
  2:{ rewrite normalize_sub_no_breakdown by done. eauto. }
  rewrite (normalize_sub_breakdown r entries) by done.
  rewrite forallb_entry_ok.
  pose proof (rmapM_get_value entries) as Hg.
  destruct (forallb (λ m, negb (is_nullish m)) entries); simpl; rewrite Hg; [|done].
  rewrite rbind_ok.
  pose proof (math_min_decided ((λ m, field m "value") <$> entries)) as Hmin.
  pose proof (math_max_decided ((λ m, field m "value") <$> entries)) as Hmax.
  unfold decided_by in Hmin, Hmax.
  destruct (forallb convertible _).
  - destruct Hmin as [lo ->], Hmax as [hi ->]. rewrite !rbind_ok. eauto.
  - by rewrite Hmin.
Qed.

Lemma normalize_main_decided (mainItem : value) :
  decided_by main_ok normalize_main mainItem.
Proof.
  unfold decided_by, main_ok, normalize_main.
  destruct (is_nullish mainItem) eqn:Hn; simpl.
  { by rewrite get_nullish. }
  rewrite get_non_nullish by done. rewrite rbind_ok.
  destruct (js_or (field mainItem "rate") (VArr [])) as [| | | | |subRates|]; try done.
  apply (rmapM_decided sub_ok normalize_sub subRates).
  apply Forall_forall. intros; apply normalize_sub_decided.
Qed.

Lemma normalizeRates_decided (rawRates : value) :
  decided_by well_shaped normalizeRates rawRates.
Proof.
  unfold decided_by, well_shaped, normalizeRates.
  set (list := match rawRates with VArr items => items | _ => [rawRates] end).
  pose proof (rmapM_decided main_ok normalize_main list) as H.
  unfold decided_by in H.
  destruct (forallb main_ok list).
  - destruct H as [groups ->]; [|rewrite rbind_ok; eauto].
    apply Forall_forall. intros; apply normalize_main_decided.
  - rewrite H; [done|]. apply Forall_forall. intros; apply normalize_main_decided.
Qed.

Lemma normalizeRates_no_rate (fields : list (string * value)) :
  assoc "rate" fields = None → normalizeRates (VObj fields) = Ok [].
Proof.
  intros H. unfold normalizeRates, normalize_main; simpl. by rewrite H.
Qed.

(** C1, as amended.  [normalizeRates] returns a list of quotes exactly on
    the well-shaped payloads: every top-level record (the payload itself
    when it is not a list) is neither [null] nor [undefined], its [rate]
    is falsy or a list, every sub-record is neither [null] nor
    [undefined], and every entry of a list-valued monthly breakdown is
    neither [null] nor [undefined] and has a value that converts to a
    number.  On every other payload it throws a TypeError.  A record
    without [rate] contributes no quote, and a sub-record whose monthly
    breakdown is missing or not a list gets the lodging ["N/A"]. *)
Theorem normalizeRates_returns_iff_well_shaped (rawRates : value) :
  (if well_shaped rawRates
   then ∃ quotes, normalizeRates rawRates = Ok quotes
   else normalizeRates rawRates = Throw TypeError) ∧
  (∀ fields, assoc "rate" fields = None → normalizeRates (VObj fields) = Ok []) ∧
  (∀ r, is_nullish r = false → breakdown r = None →
     normalize_sub r = Ok (Quote (VStr "N/A") (field r "meals"))).
Proof.
  split; [apply normalizeRates_decided|].
  split; [apply normalizeRates_no_rate | apply normalize_sub_no_breakdown].
Qed.

(** C1, as stated, fails: a [null] payload, a [null] record, a [rate] that
    is not a list and a [null] sub-record each make [normalizeRates]
    throw, and a breakdown value that is not a number gives the lodging
    ["NaN-NaN"], not ["N/A"]. *)
Lemma normalizeRates_raises_on_null_record :
  normalizeRates VNull = Throw TypeError ∧
  normalizeRates (VArr [VNull]) = Throw TypeError ∧
  normalizeRates (VObj [("rate", VObj [("meals", dollars 79)])]) = Throw TypeError ∧
  normalizeRates (payload_of VNull) = Throw TypeError ∧
  normalizeRates (payload_of (sub_record (dollars 79) [VStr "n/a"])) =
    Ok [Quote (VStr "NaN-NaN") (dollars 79)].
Proof. repeat split; reflexivity. Qed.

(** ** Lodging from the monthly breakdown *)

Lemma rmapM_value_of_entries (values : list value) :
  rmapM (λ m, get m "value") ((λ v, VObj [("value", v)]) <$> values) = Ok values.
Proof.
  induction values as [|v l IH]; [done|].
  rewrite fmap_cons. cbn [rmapM]. by rewrite IH.
Qed.

Lemma rmapM_to_number_dollars (zs : list Z) :
  rmapM to_number (dollars <$> zs) = Ok (Fin <$> zs).
Proof.
  induction zs as [|z l IH]; [done|].
  rewrite fmap_cons. cbn [rmapM]. by rewrite IH.
Qed.

Lemma lowest_from_fin (z : Z) (zs : list Z) :
  lowest_from (Fin z) (Fin <$> zs) = Fin (foldl Z.min z zs).
Proof.
  revert z. induction zs as [|y l IH]; intros z; [done|].
  rewrite fmap_cons. cbn [lowest_from foldl is_nan num_ltb].
  destruct (Z.ltb_spec y z).
  - rewrite IH. by rewrite (Z.min_r z y) by lia.
  - rewrite IH. by rewrite (Z.min_l z y) by lia.
Qed.

Lemma highest_from_fin (z : Z) (zs : list Z) :
  highest_from (Fin z) (Fin <$> zs) = Fin (foldl Z.max z zs).
Proof.
  revert z. induction zs as [|y l IH]; intros z; [done|].
  rewrite fmap_cons. cbn [highest_from foldl is_nan num_ltb].
  destruct (Z.ltb_spec z y).
  - rewrite IH. by rewrite (Z.max_r z y) by lia.
  - rewrite IH. by rewrite (Z.max_l z y) by lia.
Qed.

(** The lodging of a sub-record whose breakdown holds the whole-dollar
    amounts [z :: zs]: the amount itself when the least equals the
    greatest, the range text otherwise. *)
Lemma normalize_sub_amounts (meals : value) (z : Z) (zs : list Z) :
  let lo := foldl Z.min z zs in
  let hi := foldl Z.max z zs in
  normalize_sub (sub_record meals (dollars <$> (z :: zs))) =
    Ok (Quote (if lo =? hi then dollars lo
               else VStr (pretty lo +:+ "-" +:+ pretty hi)) meals).
Proof.
  intros lo hi.
  rewrite (normalize_sub_breakdown _ ((λ v, VObj [("value", v)]) <$> (dollars <$> z :: zs)))
    by done.
  rewrite rmapM_value_of_entries. rsimpl.
  unfold math_min, math_max. rewrite rmapM_to_number_dollars. rsimpl.
  change (lowest_from PosInf (Fin <$> z :: zs)) with (lowest_from (Fin z) (Fin <$> zs)).
  change (highest_from NegInf (Fin <$> z :: zs)) with (highest_from (Fin z) (Fin <$> zs)).
  by rewrite lowest_from_fin, highest_from_fin.
Qed.

Example lodging_flat :
  normalizeRates (payload_of (sub_record (dollars 79) (dollars <$> [100; 100; 100]))) =
    Ok [Quote (dollars 100) (dollars 79)].
Proof. reflexivity. Qed.

Example lodging_seasonal :
  normalizeRates (payload_of (sub_record (dollars 79) (dollars <$> [80; 120]))) =
    Ok [Quote (VStr "80-120") (dollars 79)].
Proof. reflexivity. Qed.

Example lodging_absent :
  normalizeRates (payload_of (VObj [("meals", dollars 79)])) =
    Ok [Quote (VStr "N/A") (dollars 79)].
Proof. reflexivity. Qed.

(** C2 at the empty breakdown.  [r.months.month] is [[]]: the guard of
    [normalizeRates] lets the empty list through, [Math.min()] is
    [Infinity] and [Math.max()] is [-Infinity], and the lodging is the
    text ["Infinity--Infinity"] where the claim has ["N/A"]. *)
Theorem lodging_of_empty_breakdown :
  normalizeRates (payload_of (sub_record (dollars 79) [])) =
    Ok [Quote (VStr "Infinity--Infinity") (dollars 79)].
Proof. reflexivity. Qed.

(** ** Deduplication *)

Lemma rmapM_throw_inv {A B} (f : A → result B) (l : list A) (e : error) :
  rmapM f l = Throw e → ∃ x, x ∈ l ∧ f x = Throw e.
Proof.
  induction l as [|x l IH]; simpl; [done|].
  destruct (f x) as [y|e'] eqn:Hx; rsimpl.
  - destruct (rmapM f l) as [ys|e'']; [done|]. rsimpl. intros [= ->].
    destruct IH as (x' & Hin & Hx'); [done|].
    exists x'. split; [by apply list_elem_of_further | done].
  - intros [= ->]. exists x. split; [apply list_elem_of_here | done].
Qed.

Lemma rmapM_ok_Forall {A B} (f : A → result B) (l : list A) (ys : list B) :
  rmapM f l = Ok ys → Forall (λ x, ∃ y, f x = Ok y) l.
Proof.
  revert ys. induction l as [|x l IH]; simpl; intros ys H; [constructor|].
  destruct (f x) as [y|e] eqn:Hx; [|done]. rsimpl in H.
  destruct (rmapM f l) as [ys'|e]; [|done].
  constructor; eauto.
Qed.

Lemma to_string_error (v : value) (e : error) : to_string v = Throw e → e = TypeError.
Proof.
  pose proof (to_string_decided v) as H. unfold decided_by in H.
  destruct (convertible v).
  - destruct H as [s ->]. done.
  - rewrite H. by intros [= <-].
Qed.

Lemma quote_key_error (r : quote) (e : error) : quote_key r = Throw e → e = TypeError.
Proof.
  unfold quote_key.
  destruct (to_string (js_or (lodging r) _)) as [l|e1] eqn:Hl; rsimpl.
  - destruct (to_string (js_or (mie r) _)) as [m|e2] eqn:Hm; rsimpl; [done|].
    intros [= <-]. by apply to_string_error in Hm.
  - intros [= <-]. by apply to_string_error in Hl.
Qed.

Lemma key_of_ok (r : quote) (k : string) : quote_key r = Ok k → key_of r = k.
Proof. unfold key_of. by intros ->. Qed.

Lemma quote_key_key_of (r : quote) :
  (∃ k, quote_key r = Ok k) → quote_key r = Ok (key_of r).
Proof. intros [k H]. by rewrite (key_of_ok r k H). Qed.

Lemma rmapM_quote_key (rates : list quote) :
  Forall (λ r, ∃ k, quote_key r = Ok k) rates →
  rmapM quote_key rates = Ok (key_of <$> rates).
Proof.
  induction 1 as [|r l Hr _ IH]; [done|].
  rewrite fmap_cons. cbn [rmapM].
  rewrite (quote_key_key_of r Hr). rsimpl. by rewrite IH.
Qed.

Lemma rmapM_quote_key_inv (rates : list quote) (ks : list string) :
  rmapM quote_key rates = Ok ks → ks = key_of <$> rates.
Proof.
  intros H. pose proof (rmapM_ok_Forall _ _ _ H) as Hall.
  rewrite (rmapM_quote_key rates Hall) in H. by injection H.
Qed.

Lemma dedupe_loop_fresh (rates : list quote) (seen : gset string) (unique : list quote) :
  Forall (λ r, ∃ k, quote_key r = Ok k) rates →
  dedupe_loop rates seen unique = Ok (unique ++ fresh seen rates)%list.
Proof.
  intros H. revert seen unique.
  induction H as [|r l Hr _ IH]; intros seen unique; simpl.
  - by rewrite app_nil_r.
  - rewrite (quote_key_key_of r Hr). rsimpl.
    destruct (decide (key_of r ∈ seen)); [apply IH|].
    rewrite IH. by rewrite <- app_assoc.
Qed.

Lemma dedupe_loop_throw (rates : list quote) (seen : gset string)
    (unique : list quote) (e : error) :
  rmapM quote_key rates = Throw e → dedupe_loop rates seen unique = Throw e.
Proof.
  revert seen unique. induction rates as [|r l IH]; intros seen unique; [done|].
  cbn [rmapM dedupe_loop].
  destruct (quote_key r) as [k|e']; rsimpl; [|by intros [= ->]].
  destruct (rmapM quote_key l) as [ks|e'']; rsimpl; [done|].
  intros [= ->]. destruct (decide (k ∈ seen)); by apply IH.
Qed.

Lemma fresh_sublist (seen : gset string) (l : list quote) : fresh seen l `sublist_of` l.
Proof.
  revert seen. induction l as [|r l IH]; intros seen; simpl; [constructor|].
  destruct (decide (key_of r ∈ seen)).
  - by apply sublist_cons.
  - by apply sublist_skip.
Qed.

Lemma first_seen_elem (ks : list string) (k : string) : k ∈ first_seen ks ↔ k ∈ ks.
Proof.
  induction ks as [|k' ks IH]; simpl; [done|].
  rewrite !elem_of_cons, list_elem_of_filter, IH.
  destruct (decide (k = k')); naive_solver.
Qed.

Lemma first_seen_NoDup (ks : list string) : NoDup (first_seen ks).
Proof.
  induction ks as [|k ks IH]; simpl; [constructor|].
  apply NoDup_cons. split.
  - rewrite list_elem_of_filter. naive_solver.
  - by apply NoDup_filter.
Qed.

Lemma fresh_keys (seen : gset string) (l : list quote) :
  key_of <$> fresh seen l = filter (λ k, k ∉ seen) (first_seen (key_of <$> l)).
Proof.
  revert seen. induction l as [|r l IH]; intros seen; [done|].
  rewrite fmap_cons. cbn [fresh first_seen].
  rewrite filter_cons.
  destruct (decide (key_of r ∈ seen)) as [Hin|Hout].
  - rewrite decide_False by (intros H; by apply H).
    rewrite IH, list_filter_filter.
    apply list_filter_iff. intros k. split; [|tauto].
    intros Hk. split; [done|]. intros ->. done.
  - rewrite decide_True by done.
    rewrite fmap_cons, IH, list_filter_filter. f_equal.
    apply list_filter_iff. intros k. set_solver.
Qed.

Lemma filter_not_in (seen : gset string) (ks : list string) :
  (∀ k, k ∈ ks → k ∉ seen) → filter (λ k, k ∉ seen) ks = ks.
Proof.
  induction ks as [|k ks IH]; intros H; [done|].
  rewrite filter_cons_True by apply H, list_elem_of_here.
  rewrite IH; [done|]. intros k' Hk'. by apply H, list_elem_of_further.
Qed.

Lemma fresh_keys_NoDup (seen : gset string) (l : list quote) :
  NoDup (key_of <$> fresh seen l).
Proof. rewrite fresh_keys. apply NoDup_filter, first_seen_NoDup. Qed.

Lemma fresh_id (seen : gset string) (l : list quote) :
  NoDup (key_of <$> l) → (∀ q, q ∈ l → key_of q ∉ seen) → fresh seen l = l.
Proof.
  revert seen. induction l as [|r l IH]; intros seen Hnd Hout; [done|].
  rewrite fmap_cons in Hnd. apply NoDup_cons in Hnd as [Hr Hnd].
  cbn [fresh]. rewrite decide_False by (apply Hout, list_elem_of_here).
  f_equal. apply IH; [done|].
  intros q Hq. apply not_elem_of_union. split.
  - apply not_elem_of_singleton. intros Heq. apply Hr. rewrite <- Heq.
    by apply list_elem_of_fmap_2.
  - by apply Hout, list_elem_of_further.
Qed.

Lemma fresh_first (seen : gset string) (l : list quote) (u : quote) :
  u ∈ fresh seen l →
  ∃ l1 l2, l = (l1 ++ u :: l2)%list ∧ (key_of u ∉ seen) ∧ (∀ q, q ∈ l1 → key_of q ≠ key_of u).
Proof.
  revert seen. induction l as [|r l IH]; intros seen; cbn [fresh].
  { by intros ?%elem_of_nil. }
  destruct (decide (key_of r ∈ seen)) as [Hin|Hout].
  - intros (l1 & l2 & -> & Hu & Hl1)%IH.
    exists (r :: l1), l2. split; [done|]. split; [done|].
    intros q [->|Hq]%elem_of_cons; [|by apply Hl1].
    intros Heq. apply Hu. by rewrite <- Heq.
  - intros [->|Hu]%elem_of_cons.
    + exists [], l. split; [done|]. split; [done|]. by intros q ?%elem_of_nil.
    + apply IH in Hu as (l1 & l2 & -> & Hu & Hl1).
      apply not_elem_of_union in Hu as [Hne Hu].
      exists (r :: l1), l2. split; [done|]. split; [done|].
      intros q [->|Hq]%elem_of_cons; [|by apply Hl1].
      intros Heq. apply Hne. rewrite <- Heq. by apply elem_of_singleton.
Qed.

Lemma fresh_covers (seen : gset string) (l : list quote) (q : quote) :
  q ∈ l → key_of q ∈ seen ∨ ∃ u, u ∈ fresh seen l ∧ key_of u = key_of q.
Proof.
  revert seen. induction l as [|r l IH]; intros seen; cbn [fresh].
  { by intros ?%elem_of_nil. }
  intros [->|Hq]%elem_of_cons.
  - destruct (decide (key_of r ∈ seen)); [by left|].
    right. exists r. split; [apply list_elem_of_here | done].
  - destruct (decide (key_of r ∈ seen)); [by apply IH|].
    destruct (IH ({[key_of r]} ∪ seen) Hq) as [Hin|(u & Hu & Heq)].
    + apply elem_of_union in Hin as [Hin|Hin]; [|by left].
      apply elem_of_singleton in Hin.
      right. exists r. split; [apply list_elem_of_here | done].
    + right. exists u. split; [by apply list_elem_of_further | done].
Qed.

Lemma dedupeRates_fresh (L : list quote) :
  Forall (λ r, ∃ k, quote_key r = Ok k) L → dedupeRates L = Ok (fresh ∅ L).
Proof. intros H. unfold dedupeRates. by rewrite dedupe_loop_fresh. Qed.

Lemma fresh_keys_exist (L : list quote) :
  Forall (λ r, ∃ k, quote_key r = Ok k) L →
  Forall (λ r, ∃ k, quote_key r = Ok k) (fresh ∅ L).
Proof.
  rewrite !Forall_forall. intros H q Hq.
  apply H. eapply elem_of_sublist; [done | apply fresh_sublist].
Qed.

Lemma same_key (q u : quote) :
  (∃ k, quote_key q = Ok k) → (∃ k, quote_key u = Ok k) →
  key_of u = key_of q → quote_key u = quote_key q.
Proof.
  intros Hq Hu Heq.
  by rewrite (quote_key_key_of q Hq), (quote_key_key_of u Hu), Heq.
Qed.

Lemma dedupeRates_pair (a b : quote) (ka kb : string) :
  quote_key a = Ok ka → quote_key b = Ok kb →
  dedupeRates [a; b] = Ok (if decide (ka = kb) then [a] else [a; b]).
Proof.
  intros Ha Hb. unfold dedupeRates. simpl. rewrite Ha, Hb. rsimpl.
  rewrite decide_False by set_solver. rsimpl.
  destruct (decide (ka = kb)) as [->|Hne].
  - rewrite decide_True by set_solver. done.
  - rewrite decide_False by set_solver. done.
Qed.

(** C3, as amended.  [dedupeRates] collapses two quotes exactly when
    their keys agree, the key of a quote being the text
    [lodging-mie] in which each field that is falsy (missing, [null],
    [0], [NaN], the empty text, [false]) is replaced by ["N/A"] and each
    other field by its conversion to text.  The result keeps the first
    quote of every key, in the order of first appearance: it is a
    sublist of the input, every input quote has its key represented, no
    two results share a key, and each result stands in the input before
    any other quote of its key.  It throws (a TypeError) only when some
    field has no conversion to text. *)
Theorem dedupeRates_collapses_equal_keys (L : list quote) :
  match dedupeRates L with
  | Ok U =>
      U `sublist_of` L ∧
      (∀ q, q ∈ L → ∃ u, u ∈ U ∧ quote_key u = quote_key q) ∧
      (∀ i j u v, U !! i = Some u → U !! j = Some v →
         quote_key u = quote_key v → i = j) ∧
      (∀ u, u ∈ U → ∃ l1 l2, L = (l1 ++ u :: l2)%list ∧
         ∀ q, q ∈ l1 → quote_key q ≠ quote_key u)
  | Throw e => e = TypeError ∧ ∃ q, q ∈ L ∧ quote_key q = Throw TypeError
  end ∧
  (∀ a b ka kb, quote_key a = Ok ka → quote_key b = Ok kb →
     dedupeRates [a; b] = Ok (if decide (ka = kb) then [a] else [a; b])).
Proof.
  split; [|apply dedupeRates_pair].
  destruct (rmapM quote_key L) as [ks|e] eqn:Hks.
  - pose proof (rmapM_ok_Forall _ _ _ Hks) as Hall.
    rewrite (dedupeRates_fresh L Hall).
    pose proof (fresh_keys_exist L Hall) as HallU.
    rewrite Forall_forall in Hall, HallU.
    split; [apply fresh_sublist|]. split; [|split].
    + intros q Hq. destruct (fresh_covers ∅ L q Hq) as [Hin|(u & Hu & Heq)].
      * by apply not_elem_of_empty in Hin.
      * exists u. split; [done|]. apply same_key; auto.
    + intros i j u v Hi Hj Heq.
      apply (NoDup_lookup (key_of <$> fresh ∅ L) i j (key_of u)).
      * apply fresh_keys_NoDup.
      * by rewrite list_lookup_fmap, Hi.
      * rewrite list_lookup_fmap, Hj. simpl. unfold key_of. by rewrite Heq.
    + intros u Hu. destruct (fresh_first ∅ L u Hu) as (l1 & l2 & HL & _ & Hl1).
      exists l1, l2. split; [done|]. intros q Hq Heq.
      apply (Hl1 q Hq). unfold key_of. by rewrite Heq.
  - unfold dedupeRates. rewrite (dedupe_loop_throw L ∅ [] e Hks).
    apply rmapM_throw_inv in Hks as (q & Hq & Hkey).
    pose proof (quote_key_error q e Hkey) as ->. eauto.
Qed.

(** C3, as stated, fails: the lodging [0] and the lodging ["N/A"] are
    different values, none of them missing, yet the two quotes collapse,
    because [r.lodging || 'N/A'] takes the falsy [0] for a missing
    value; and the number [79] and the text ["79"] are different meal
    rates that collapse, because the key compares their texts. *)
Lemma dedupeRates_collapses_zero_with_marker :
  dedupeRates [Quote (dollars 0) (dollars 79); Quote (VStr "N/A") (dollars 79)] =
    Ok [Quote (dollars 0) (dollars 79)] ∧
  normalized_pair (Quote (dollars 0) (dollars 79)) ≠
    normalized_pair (Quote (VStr "N/A") (dollars 79)) ∧
  dedupeRates [Quote (dollars 150) (dollars 79); Quote (dollars 150) (VStr "79")] =
    Ok [Quote (dollars 150) (dollars 79)] ∧
  normalized_pair (Quote (dollars 150) (dollars 79)) ≠
    normalized_pair (Quote (dollars 150) (VStr "79")).
Proof. repeat split; (reflexivity || discriminate). Qed.

Lemma quote_key_convertible (r : quote) :
  convertible (lodging r) = true → convertible (mie r) = true →
  ∃ k, quote_key r = Ok k.
Proof.
  intros Hl Hm. unfold quote_key, js_or.
  assert (∀ v, convertible v = true →
            ∃ s, to_string (if to_boolean v then v else VStr "N/A") = Ok s) as Hconv.
  { intros v Hv. destruct (to_boolean v); [|by eexists].
    apply (decided_by_true convertible to_string); [apply to_string_decided | done]. }
  destruct (Hconv _ Hl) as [l ->], (Hconv _ Hm) as [m ->]. by eexists.
Qed.

(** On quotes whose fields are numbers, texts or missing (any value with
    a conversion to text) [dedupeRates] returns. *)
Lemma dedupeRates_returns (L : list quote) :
  Forall (λ r, convertible (lodging r) = true ∧ convertible (mie r) = true) L →
  dedupeRates L = Ok (fresh ∅ L).
Proof.
  intros H. apply dedupeRates_fresh.
  eapply Forall_impl; [done|]. intros r [Hl Hm]. by apply quote_key_convertible.
Qed.

Example scenario_single_quote :
  (quotes ← normalizeRates
     (payload_of (sub_record (dollars 79) [dollars 150; dollars 150]));
   dedupeRates quotes) = Ok [Quote (dollars 150) (dollars 79)].
Proof. reflexivity. Qed.

(** C4.  [dedupeRates] is idempotent, and the keys of its result are the
    distinct keys of the input in the order of their first occurrence;
    it throws exactly when computing the keys of the input throws. *)
Theorem dedupeRates_idempotent (L : list quote) :
  match dedupeRates L with
  | Ok U =>
      dedupeRates U = Ok U ∧
      ∃ ks, rmapM quote_key L = Ok ks ∧ rmapM quote_key U = Ok (first_seen ks)
  | Throw e => rmapM quote_key L = Throw e
  end.
Proof.
  destruct (rmapM quote_key L) as [ks|e] eqn:Hks.
  - pose proof (rmapM_ok_Forall _ _ _ Hks) as Hall.
    rewrite (dedupeRates_fresh L Hall).
    pose proof (fresh_keys_exist L Hall) as HallU.
    split.
    + rewrite (dedupeRates_fresh _ HallU). f_equal.
      apply fresh_id; [apply fresh_keys_NoDup | intros; apply not_elem_of_empty].
    + exists ks. split; [done|].
      rewrite (rmapM_quote_key _ HallU), fresh_keys.
      rewrite (rmapM_quote_key_inv L ks Hks). f_equal.
      apply filter_not_in. intros k _. apply not_elem_of_empty.
  - unfold dedupeRates. by rewrite (dedupe_loop_throw L ∅ [] e Hks).
Qed.

(** ** Neighbour discovery *)

Lemma strict_eq_eq (a b : value) : strict_eq a b = true → a = b.
Proof.
  destruct a as [| |x|x|x| |], b as [| |y|y|y| |]; simpl; try done.
  - intros ?%bool_decide_eq_true. by subst.
  - destruct x, y; simpl; try done. intros ?%Z.eqb_eq. by subst.
  - intros ?%String.eqb_eq. by subst.
Qed.

Lemma same_value_zero_eq (a b : value) : same_value_zero a b = true → a = b.
Proof.
  destruct a as [| |x|x|x| |]; try apply strict_eq_eq.
  destruct x; try apply strict_eq_eq.
  destruct b as [| |y|y|y| |]; try done. by destruct y.
Qed.

Lemma same_value_zero_sym (a b : value) :
  same_value_zero a b = false → same_value_zero b a = false.
Proof.
  intros H. destruct (same_value_zero b a) eqn:Hba; [|done].
  pose proof (same_value_zero_eq b a Hba) as ->. congruence.
Qed.

Lemma set_has_app (seen : list value) (c code : value) :
  set_has (seen ++ [c]) code = set_has seen code || same_value_zero code c.
Proof. unfold set_has. rewrite existsb_app. simpl. by rewrite orb_false_r. Qed.

Lemma collect_zones_kept (elements : list value) (targetZip : value)
    (seen : list value) (zones : list zone) :
  Forall (λ el, is_nullish el = false) elements →
  collect_zones elements targetZip seen zones =
    Ok (zones ++ kept elements targetZip seen)%list.
Proof.
  intros H. revert seen zones.
  induction H as [|el l Hel _ IH]; intros seen zones; cbn [collect_zones kept].
  - by rewrite app_nil_r.
  - rewrite (get_non_nullish el "tags") by done. rsimpl.
    assert (opt_get (field el "tags") "postal_code" = Ok (postal_code_of el)) as ->.
    { unfold opt_get, postal_code_of.
      destruct (is_nullish (field el "tags")) eqn:Ht.
      - by destruct (field el "tags").
      - by apply get_non_nullish. }
    rsimpl.
    destruct (negb _ || _ || _); [apply IH|].
    rewrite (get_non_nullish el "geometry") by done. rsimpl.
    rewrite IH. by rewrite <- app_assoc.
Qed.

Lemma collect_zones_nullish (elements : list value) (targetZip : value)
    (seen : list value) (zones : list zone) :
  Exists (λ el, is_nullish el = true) elements →
  collect_zones elements targetZip seen zones = Throw TypeError.
Proof.
  intros H. revert seen zones.
  induction elements as [|el l IH]; intros seen zones; [by inversion H|].
  cbn [collect_zones].
  destruct (is_nullish el) eqn:Hel.
  { by rewrite (get_nullish el "tags"). }
  assert (Exists (λ el, is_nullish el = true) l) as Hl.
  { inversion H; subst; [congruence | done]. }
  rewrite (get_non_nullish el "tags") by done. rsimpl.
  destruct (opt_get (field el "tags") "postal_code") as [code|e] eqn:Hc.
  2:{ unfold opt_get in Hc. destruct (is_nullish (field el "tags")) eqn:Ht; [done|].
      by rewrite get_non_nullish in Hc. }
  rsimpl. destruct (negb _ || _ || _); [by apply IH|].
  rewrite (get_non_nullish el "geometry") by done. rsimpl. by apply IH.
Qed.

Lemma eligible_iff (targetZip : value) (seen : list value) (code : value) :
  negb (to_boolean code) || strict_eq code targetZip || set_has seen code = false ↔
  eligible targetZip seen code.
Proof.
  unfold eligible.
  destruct (to_boolean code), (strict_eq code targetZip), (set_has seen code);
    simpl; naive_solver.
Qed.

Lemma kept_first (elements : list value) (targetZip : value) (seen : list value) (z : zone) :
  z ∈ kept elements targetZip seen →
  eligible targetZip seen (postalCode z) ∧
  ∃ l1 el l2, elements = (l1 ++ el :: l2)%list ∧
    z = Zone (postal_code_of el) (field el "geometry") VUndef ∧
    (∀ e, e ∈ l1 → same_value_zero (postal_code_of e) (postalCode z) = false).
Proof.
  revert seen. induction elements as [|el l IH]; intros seen; cbn [kept].
  { by intros ?%elem_of_nil. }
  destruct (negb _ || _ || _) eqn:Hskip.
  - intros (Hadm & l1 & el' & l2 & -> & -> & Hl1)%IH.
    split; [done|]. exists (el :: l1), el', l2. split; [done|]. split; [done|].
    intros e [->|He]%elem_of_cons; [|by apply Hl1].
    destruct (same_value_zero _ _) eqn:Hsame; [|done].
    apply same_value_zero_eq in Hsame. simpl in Hsame, Hadm.
    apply eligible_iff in Hadm. rewrite <- Hsame in Hadm. congruence.
  - apply eligible_iff in Hskip as Hadm.
    intros [->|Hz]%elem_of_cons.
    + split; [done|]. exists [], el, l. split; [done|]. split; [done|].
      by intros e ?%elem_of_nil.
    + apply IH in Hz as ((Ht & Hs & Hseen) & l1 & el' & l2 & -> & -> & Hl1).
      simpl in Ht, Hs, Hseen. rewrite set_has_app in Hseen.
      apply orb_false_iff in Hseen as [Hseen Hne].
      split; [done|]. exists (el :: l1), el', l2. split; [done|]. split; [done|].
      intros e [->|He]%elem_of_cons; [|by apply Hl1].
      simpl. by apply same_value_zero_sym.
Qed.

Lemma kept_distinct (elements : list value) (targetZip : value) (seen : list value)
    (i j : nat) (zi zj : zone) :
  (i < j)%nat →
  kept elements targetZip seen !! i = Some zi →
  kept elements targetZip seen !! j = Some zj →
  same_value_zero (postalCode zj) (postalCode zi) = false.
Proof.
  revert seen i j. induction elements as [|el l IH]; intros seen i j Hij; cbn [kept].
  { done. }
  destruct (negb _ || _ || _); [by apply IH|].
  destruct i as [|i], j as [|j]; try lia; simpl.
  - intros [= <-] Hj. simpl.
    assert (zj ∈ kept l targetZip (seen ++ [postal_code_of el])) as Hin.
    { apply list_elem_of_lookup. eauto. }
    apply kept_first in Hin as ((_ & _ & Hseen) & _).
    rewrite set_has_app in Hseen. by apply orb_false_iff in Hseen as [_ ?].
  - apply IH. lia.
Qed.

Lemma fetchSurroundingZips_result (net : network) (center : coordinate * coordinate)
    (targetZip : value) (p : page) (zones : list zone) :
  fst (fetchSurroundingZips net center targetZip p) = Ok zones →
  zones = [] ∨ ∃ elements, collect_zones elements targetZip [] [] = Ok zones.
Proof.
  unfold fetchSurroundingZips, fetch, json, lift, throw, mbind, M_bind, m_bind, mret, M_ret, m_ret, lift.
  destruct (net _) as [|[[] [data|]]]; simpl; try done.
  - destruct (get data "elements") as [elements|]; simpl; [|done].
    destruct (iterate _) as [els|]; simpl; [|done]. eauto.
  - intros [= <-]. by left.
  - intros [= <-]. by left.
Qed.

Example neighbours_of_austin :
  collect_zones
    [element (VStr "78702") (VArr [VObj [("lat", dollars 30); ("lon", dollars (-97))]]);
     element (VStr "78701") VNull;
     element (VStr "78703") VNull;
     element (VStr "78702") VNull]
    (VStr "78701") [] [] =
  Ok [Zone (VStr "78702") (VArr [VObj [("lat", dollars 30); ("lon", dollars (-97))]]) VUndef;
      Zone (VStr "78703") VNull VUndef].
Proof. reflexivity. Qed.

(** C6.  The loop of [fetchSurroundingZips], on every element list and
    target: no zone of the result has the target's postal code ([===]),
    no two zones have the same postal code, and each zone is built from
    the first element that carries its code.  The loop throws only on an
    element that is [null] or [undefined].  Whatever
    [fetchSurroundingZips] returns is the empty list or a result of this
    loop. *)
Theorem surrounding_zips_exclude_target_and_duplicates :
  (∀ (elements : list value) (targetZip : value),
     match collect_zones elements targetZip [] [] with
     | Ok zones =>
         Forall (λ z, strict_eq (postalCode z) targetZip = false) zones ∧
         (∀ i j zi zj, zones !! i = Some zi → zones !! j = Some zj → i ≠ j →
            same_value_zero (postalCode zi) (postalCode zj) = false) ∧
         (∀ z, z ∈ zones → ∃ l1 el l2, elements = (l1 ++ el :: l2)%list ∧
            postalCode z = postal_code_of el ∧ geometry z = field el "geometry" ∧
            (∀ e, e ∈ l1 → same_value_zero (postal_code_of e) (postalCode z) = false))
     | Throw e => e = TypeError ∧ ∃ el, el ∈ elements ∧ is_nullish el = true
     end) ∧
  (∀ net center targetZip p zones,
     fst (fetchSurroundingZips net center targetZip p) = Ok zones →
     zones = [] ∨ ∃ elements, collect_zones elements targetZip [] [] = Ok zones).
Proof.
  split; [|apply fetchSurroundingZips_result].
  intros elements targetZip.
  destruct (decide (Forall (λ el, is_nullish el = false) elements)) as [Hall|Hex].
  - rewrite (collect_zones_kept elements targetZip [] [] Hall). simpl.
    split; [|split].
    + apply Forall_forall. intros z Hz. by apply kept_first in Hz as ((_ & ? & _) & _).
    + intros i j zi zj Hi Hj Hne.
      destruct (decide (i < j)%nat).
      * apply same_value_zero_sym. by eapply kept_distinct.
      * eapply kept_distinct; [|done..]. lia.
    + intros z Hz. apply kept_first in Hz as (_ & l1 & el & l2 & -> & -> & Hl1).
      exists l1, el, l2. done.
  - apply not_Forall_Exists in Hex; [|intros el; apply _].
    assert (Exists (λ el, is_nullish el = true) elements) as Hex'.
    { eapply Exists_impl; [done|]. intros el. simpl. by destruct (is_nullish el). }
    rewrite (collect_zones_nullish elements targetZip [] [] Hex').
    split; [done|]. by apply Exists_exists in Hex'.
Qed.

(** ** Computations on the page *)

Ltac munfold :=
  unfold mbind, M_bind, m_bind, mret, M_ret, m_ret, throw, lift, modify.

Lemma keeps_target_ret {A} (a : A) : keeps_target (mret a : M A).
Proof. by intros p. Qed.

Lemma keeps_target_lift {A} (r : result A) : keeps_target (lift r).
Proof. by intros p. Qed.

Lemma keeps_target_bind {A B} (m : M A) (k : A → M B) :
  keeps_target m → (∀ a, keeps_target (k a)) → keeps_target (m ≫= k).
Proof.
  intros Hm Hk p. munfold. specialize (Hm p).
  destruct (m p) as [[a|e] p']; simpl in *; [|done].
  by rewrite Hk.
Qed.

Lemma keeps_target_try_catch {A} (body : M A) (recover : error → M A) :
  keeps_target body → (∀ e, keeps_target (recover e)) →
  keeps_target (try_catch body recover).
Proof.
  intros Hm Hk p. unfold try_catch. specialize (Hm p).
  destruct (body p) as [[a|e] p']; simpl in *; [done|].
  by rewrite Hk.
Qed.

Lemma keeps_target_modify (f : page → page) :
  (∀ p, targetLayer (f p) = targetLayer p) → keeps_target (modify f).
Proof. intros H p. apply H. Qed.

Lemma keeps_target_fetch (net : network) (r : request) : keeps_target (fetch net r).
Proof. by intros p. Qed.

Lemma keeps_target_for_each {A} (f : A → M unit) (l : list A) :
  (∀ x, keeps_target (f x)) → keeps_target (for_each f l).
Proof.
  intros H. induction l as [|x l IH]; simpl.
  - apply keeps_target_ret.
  - apply keeps_target_bind; [apply H | by intros _].
Qed.

Lemma keeps_target_json (res : response) : keeps_target (json res).
Proof. unfold json. destruct (body res); by intros p. Qed.

Lemma keeps_target_updateStatus (t : status_text) (e l : bool) :
  keeps_target (updateStatus t e l).
Proof. by apply keeps_target_modify. Qed.

Create HintDb keeps_target.

#[local] Hint Resolve keeps_target_ret keeps_target_lift keeps_target_fetch
  keeps_target_json keeps_target_updateStatus : keeps_target.

Ltac keeps_target_step :=
  first
    [ apply keeps_target_bind; [|intros ?]
    | apply keeps_target_try_catch; [|intros ?]
    | apply keeps_target_for_each; intros ?
    | apply keeps_target_modify; by intros ?
    | solve [auto with keeps_target]
    | by intros ?
    | match goal with |- keeps_target (if ?c then _ else _) => destruct c end
    | match goal with |- keeps_target (match ?x with _ => _ end) => destruct x end ].

Lemma keeps_target_fetchPerDiem (net : network) (zip : value) :
  keeps_target (fetchPerDiem net zip).
Proof. unfold fetchPerDiem. repeat keeps_target_step. Qed.

Lemma keeps_target_displayRates (zip : value) (rates : list quote) :
  keeps_target (displayRates zip rates).
Proof. unfold displayRates, append_rate. repeat keeps_target_step. Qed.

Lemma keeps_target_renderSurrounding (net : network) (center : coordinate * coordinate)
    (targetZip : value) :
  keeps_target (renderSurrounding net center targetZip).
Proof.
  unfold renderSurrounding, fetchSurroundingZips, render_zone.
  repeat keeps_target_step.
Qed.

(** ** Rates *)

(** C7.  [fetchPerDiem] on a postal code never throws: it returns the
    empty list when the request is rejected (transport failure), when the
    response is not a success, when its body is not JSON and when
    normalising the payload throws; otherwise it returns the normalised
    quotes.  The year is the selector's value, ["2025"] without a
    selector. *)
Theorem fetchPerDiem_degrades_to_empty (net : network) (zip : string) (p : page) :
  let year := default "2025" (yearSelect p) in
  let outcome := fst (fetchPerDiem net (VStr zip) p) in
  (∃ quotes, outcome = Ok quotes) ∧
  match net (RatesOf zip year) with
  | Rejected => outcome = Ok []
  | Reply res =>
      if ok res then
        match body res with
        | None => outcome = Ok []
        | Some data =>
            outcome = match raw_rates data ≫= normalizeRates with
                      | Ok quotes => Ok quotes
                      | Throw _ => Ok []
                      end
        end
      else outcome = Ok []
  end.
Proof.
  intros year outcome. subst outcome year.
  unfold fetchPerDiem, try_catch, fetch, json. munfold. simpl.
  destruct (net _) as [|[[] [data|]]]; simpl; eauto.
  destruct (raw_rates data) as [rawRates|e]; simpl; eauto.
  destruct (normalizeRates rawRates) as [quotes|e]; simpl; eauto.
Qed.

(** ** Postal code of a place *)

Lemma optional_postcode (a : value) :
  opt_get a "postcode" = Ok (field a "postcode").
Proof.
  unfold opt_get. destruct (is_nullish a) eqn:Ha.
  - by destruct a.
  - by apply get_non_nullish.
Qed.

Lemma optional_geojson (a : value) :
  opt_get a "geojson" = Ok (field a "geojson").
Proof.
  unfold opt_get. destruct (is_nullish a) eqn:Ha.
  - by destruct a.
  - by apply get_non_nullish.
Qed.

Ltac reverse_lookup_case place net :=
  let lat := fresh "lat" in
  let lon := fresh "lon" in
  let Hlat := fresh "Hlat" in
  let Hlon := fresh "Hlon" in
  let data := fresh "data" in
  let d := fresh "d" in
  let Hd := fresh "Hd" in
  intros lat lon Hlat Hlon;
  rewrite !(get_non_nullish place) by done; rsimpl; rewrite Hlat, Hlon;
  unfold fetch, json;
  destruct (net (ReverseLookup lat lon)) as [|[[] [data|]]]; simpl;
    [done | | by split | done | done];
  split;
    [ destruct (get data "address"); simpl; [by rewrite optional_postcode | done]
    | intros d [= <-] Hd;
      rewrite (get_non_nullish data "address") by done;
      by rewrite optional_postcode ].

(** C8.  A place that carries a postcode ([place.address] and
    [place.address.postcode] both truthy) resolves to it with the page,
    and so the list of requests sent, unchanged.  A place without one
    sends exactly one reverse lookup, at its coordinates; a successful
    response gives the postcode of the returned address when there is
    one and [null] otherwise, and a response that is not a success gives
    [null]. *)
Theorem resolveZip_uses_carried_postcode (net : network) (place : value) (p : page) :
  is_nullish place = false →
  match carried_postcode place with
  | Some postcode => resolveZip net place p = (Ok postcode, p)
  | None =>
      ∀ lat lon,
        to_string (field place "lat") = Ok lat →
        to_string (field place "lon") = Ok lon →
        snd (resolveZip net place p) = log_request (ReverseLookup lat lon) p ∧
        match net (ReverseLookup lat lon) with
        | Reply res =>
            if ok res then
              ∀ data, body res = Some data → is_nullish data = false →
                fst (resolveZip net place p) =
                  Ok (js_or (field (field data "address") "postcode") VNull)
            else fst (resolveZip net place p) = Ok VNull
        | Rejected => fst (resolveZip net place p) = Throw FetchFailed
        end
  end.
Proof.
  intros Hplace. unfold carried_postcode, resolveZip. munfold.
  rewrite (get_non_nullish place "address") by done.
  destruct (to_boolean (field place "address")) eqn:Haddr; simpl.
  - rewrite (get_non_nullish (field place "address") "postcode")
      by by apply truthy_not_nullish.
    destruct (to_boolean (field (field place "address") "postcode")) eqn:Hpc; [done|].
    reverse_lookup_case place net.
  - reverse_lookup_case place net.
Qed.

Lemma resolveZip_austin :
  resolveZip (services Rejected) austin (initial_page None) =
    (Ok (VStr "78701"), initial_page None).
Proof.
  exact (resolveZip_uses_carried_postcode (services Rejected) austin
           (initial_page None) eq_refl).
Defined.

Example resolveZip_reverse_lookup :
  resolveZip (services Rejected) austin_bare (initial_page None) =
    (Ok (VStr "78701"),
     log_request (ReverseLookup "30.27" "-97.74") (initial_page None)).
Proof. reflexivity. Qed.

(** ** Boundary and target overlay *)

Lemma fetchZipBoundary_error_iff (net : network) (z : string) (p : page) :
  fst (fetchZipBoundary net (VStr z) p) = Throw boundary_error ↔
  ∃ res, net (BoundaryOf z) = Reply res ∧ ok res = false.
Proof.
  unfold fetchZipBoundary, fetch, json, boundary_error. munfold. simpl.
  destruct (net (BoundaryOf z)) as [|[[] [data|]]] eqn:Hnet; simpl.
  - split; [done|]. by intros (res & [=] & _).
  - split; [|intros (res & [= <-] & [=])].
    destruct (get0 data) as [first|e] eqn:Hfirst; simpl.
    + by rewrite optional_geojson.
    + destruct data as [| | | |[]| |]; by simplify_eq/=.
  - split; [done|]. by intros (res & [= <-] & [=]).
  - split; [|done]. eauto.
  - split; [|done]. eauto.
Qed.

Lemma fetchZipBoundary_no_geometry (net : network) (z : string) (p : page)
    (matches : list value) :
  net (BoundaryOf z) = Reply (Response true (Some (VArr matches))) →
  to_boolean (field (default VUndef (head matches)) "geojson") = false →
  fetchZipBoundary net (VStr z) p = (Ok VNull, log_request (BoundaryOf z) p).
Proof.
  intros Hnet Hgeo.
  unfold fetchZipBoundary, fetch, json. munfold. simpl.
  rewrite Hnet. simpl. rewrite optional_geojson. simpl.
  unfold js_or. by rewrite Hgeo.
Qed.

Lemma drawTarget_marker (center : coordinate * coordinate) (zip : value) (p : page) :
  drawTarget VNull center zip p = (Ok (), set_target (Some (marker_at center zip)) p).
Proof. reflexivity. Qed.

Lemma updateView_marker (net : network) (lat lon : coordinate) (z : string)
    (label : value) (l : string) (p : page) (matches : list value) :
  to_string label = Ok l →
  net (BoundaryOf z) = Reply (Response true (Some (VArr matches))) →
  to_boolean (field (default VUndef (head matches)) "geojson") = false →
  targetLayer (snd (updateView net lat lon (VStr z) label p)) =
    Some (marker_at (lat, lon) (VStr z)).
Proof.
  intros Hl Hnet Hgeo. unfold updateView.
  change (targetLayer (snd (
    (_ ← modify (set_view (SetView (lat, lon) 11));
     l ← lift (to_string label);
     z' ← lift (to_string (VStr z));
     _ ← updateStatus (Text ("Centering map on " +:+ l +:+ " (Zip " +:+ z' +:+ ")...")) false true;
     targetGeojson ← fetchZipBoundary net (VStr z);
     _ ← drawTarget targetGeojson (lat, lon) (VStr z);
     (mainRates ← fetchPerDiem net (VStr z);
      _ ← displayRates (VStr z) mainRates;
      _ ← renderSurrounding net (lat, lon) (VStr z);
      updateStatus (Text "Click any shaded area to see its per diem rate.") false false)) p))
    = Some (marker_at (lat, lon) (VStr z))).
  unfold mbind at 1 2 3 4 5 6. unfold M_bind, m_bind, modify, lift, updateStatus, modify.
  rewrite Hl. cbn [to_string].
  rewrite (fetchZipBoundary_no_geometry net z _ matches Hnet Hgeo).
  rewrite drawTarget_marker.
  match goal with |- targetLayer (snd (?m ?q)) = _ =>
    assert (keeps_target m) as Hkeep
  end.
  { repeat first
      [ apply keeps_target_fetchPerDiem
      | apply keeps_target_displayRates
      | apply keeps_target_renderSurrounding
      | apply keeps_target_updateStatus
      | apply keeps_target_bind; [|intros ?] ]. }
  by rewrite Hkeep.
Qed.

(** C9.  [fetchZipBoundary] throws its own error ("Could not load
    boundary for the target Zip Code.") exactly when the boundary service
    answers with a response that is not a success; when the service
    answers successfully with a list whose first match has no geometry
    (or with an empty list) it returns [null]; [drawTarget] on [null]
    draws a point marker at the centre it is given, and that marker is
    the target layer at the end of [updateView]. *)
Theorem fetchZipBoundary_error_and_marker_fallback :
  (∀ net z p,
     fst (fetchZipBoundary net (VStr z) p) = Throw boundary_error ↔
     ∃ res, net (BoundaryOf z) = Reply res ∧ ok res = false) ∧
  (∀ net z p matches,
     net (BoundaryOf z) = Reply (Response true (Some (VArr matches))) →
     to_boolean (field (default VUndef (head matches)) "geojson") = false →
     fetchZipBoundary net (VStr z) p = (Ok VNull, log_request (BoundaryOf z) p)) ∧
  (∀ center zip p,
     drawTarget VNull center zip p =
       (Ok (), set_target (Some (marker_at center zip)) p)) ∧
  (∀ net lat lon z label l p matches,
     to_string label = Ok l →
     net (BoundaryOf z) = Reply (Response true (Some (VArr matches))) →
     to_boolean (field (default VUndef (head matches)) "geojson") = false →
     targetLayer (snd (updateView net lat lon (VStr z) label p)) =
       Some (marker_at (lat, lon) (VStr z))).
Proof.
  split; [apply fetchZipBoundary_error_iff|].
  split; [apply fetchZipBoundary_no_geometry|].
  split; [apply drawTarget_marker | apply updateView_marker].
Qed.

Example no_boundary_match_draws_marker :
  targetLayer (snd (search_submit (services (Reply (Response true (Some (VObj [])))))
                      "Austin, TX" (initial_page None))) =
    Some (marker_at (ParsedFloat "30.27", ParsedFloat "-97.74") (VStr "78701")).
Proof. reflexivity. Qed.

(** ** Neighbour overlays *)

Lemma render_zone_returns (z : zone) (p : page) : fst (render_zone z p) = Ok ().
Proof.
  unfold render_zone, try_catch. munfold.
  destruct (toLeafletShape z) as [[s|]|e]; done.
Qed.

Lemma for_each_render_app (zs1 zs2 : list zone) (p : page) :
  for_each render_zone (zs1 ++ zs2) p =
  for_each render_zone zs2 (snd (for_each render_zone zs1 p)).
Proof.
  revert p. induction zs1 as [|z zs1 IH]; intros p; [done|].
  cbn [app for_each]. munfold.
  pose proof (render_zone_returns z p) as Hz.
  destruct (render_zone z p) as [[[]|e] p']; simpl in *; [|done].
  apply IH.
Qed.

Lemma toLeafletShape_no_geometry (z : zone) :
  to_boolean (geojson z) = false →
  geometry z = VNull ∨ geometry z = VUndef ∨ geometry z = VArr [] →
  toLeafletShape z = Ok None.
Proof.
  intros Hgeo Hgeom. unfold toLeafletShape. rewrite Hgeo.
  by destruct Hgeom as [->|[->| ->]].
Qed.

(** C10.  A zone without GeoJSON whose geometry is [null], missing or the
    empty list gets no shape: [toLeafletShape] returns [null], the
    callback of [renderSurrounding] leaves the page as it is, and the
    loop over the neighbours ends on the same page as without that zone,
    so no layer and no click handler exist for it. *)
Theorem zone_without_geometry_is_skipped (z : zone) :
  to_boolean (geojson z) = false →
  geometry z = VNull ∨ geometry z = VUndef ∨ geometry z = VArr [] →
  toLeafletShape z = Ok None ∧
  (∀ p, render_zone z p = (Ok (), p)) ∧
  (∀ zs1 zs2 p,
     for_each render_zone (zs1 ++ z :: zs2) p = for_each render_zone (zs1 ++ zs2) p).
Proof.
  intros Hgeo Hgeom.
  pose proof (toLeafletShape_no_geometry z Hgeo Hgeom) as Hshape.
  assert (∀ p, render_zone z p = (Ok (), p)) as Hskip.
  { intros p. unfold render_zone, try_catch. munfold. by rewrite Hshape. }
  split; [done|]. split; [done|].
  intros zs1 zs2 p. rewrite !for_each_render_app.
  cbn [for_each]. munfold. by rewrite Hskip.
Qed.

Lemma zone_without_geometry_example :
  toLeafletShape (Zone (VStr "78703") VNull VUndef) = Ok None ∧
  (∀ p, render_zone (Zone (VStr "78703") VNull VUndef) p = (Ok (), p)) ∧
  (∀ zs1 zs2 p,
     for_each render_zone (zs1 ++ Zone (VStr "78703") VNull VUndef :: zs2) p =
     for_each render_zone (zs1 ++ zs2) p).
Proof.
  exact (zone_without_geometry_is_skipped (Zone (VStr "78703") VNull VUndef)
           eq_refl (or_introl eq_refl)).
Defined.

(** ** A failure of the regional index *)

Lemma fetchSurroundingZips_rejected (net : network) (center : coordinate * coordinate)
    (targetZip : value) (p : page) :
  net (PostalAreasAround 15000 (fst center) (snd center)) = Rejected →
  fst (fetchSurroundingZips net center targetZip p) = Throw FetchFailed.
Proof.
  intros H. unfold fetchSurroundingZips, fetch. munfold. by rewrite H.
Qed.

Lemma fetchSurroundingZips_not_json (net : network) (center : coordinate * coordinate)
    (targetZip : value) (p : page) :
  net (PostalAreasAround 15000 (fst center) (snd center)) = Reply (Response true None) →
  fst (fetchSurroundingZips net center targetZip p) = Throw SyntaxError.
Proof.
  intros H. unfold fetchSurroundingZips, fetch. munfold. by rewrite H.
Qed.

Lemma fetchSurroundingZips_not_ok (net : network) (center : coordinate * coordinate)
    (targetZip : value) (p : page) (b : option value) :
  net (PostalAreasAround 15000 (fst center) (snd center)) = Reply (Response false b) →
  fst (fetchSurroundingZips net center targetZip p) = Ok [].
Proof.
  intros H. unfold fetchSurroundingZips, fetch. munfold. by rewrite H.
Qed.

Example neighbours_not_ok_run_completes :
  statusEl (snd (search_submit (services (Reply (Response false None)))
                   "Austin, TX" (initial_page None))) = ready_status.
Proof. reflexivity. Qed.

(** C5 at a transport failure and at a malformed body.  Every other
    service answers and the regional index does not: [fetch] rejects, or
    the body is not JSON.  [fetchSurroundingZips] has no [try] and
    throws, the error leaves [renderSurrounding] and [updateView] and
    lands in the [catch] of the search handler, which shows the error's
    message as an error: the run ends failed, with its target drawn and
    its rates listed. *)
Theorem neighbour_failure_fails_the_run :
  let center := (ParsedFloat "30.27", ParsedFloat "-97.74") in
  fst (fetchSurroundingZips (services Rejected) center (VStr "78701") (initial_page None)) =
    Throw FetchFailed ∧
  statusEl (snd (search_submit (services Rejected) "Austin, TX" (initial_page None))) =
    Status (MessageOf FetchFailed) true false ∧
  fst (fetchSurroundingZips (services (Reply (Response true None))) center (VStr "78701")
         (initial_page None)) = Throw SyntaxError ∧
  statusEl (snd (search_submit (services (Reply (Response true None))) "Austin, TX"
                   (initial_page None))) =
    Status (MessageOf SyntaxError) true false.
Proof. repeat split; reflexivity. Qed.

(** * Further properties of the code *)

(** ** The normaliser, record by record *)

Lemma rmapM_Forall2 {A B} (f : A → result B) (l : list A) (ys : list B) :
  rmapM f l = Ok ys ↔ Forall2 (λ x y, f x = Ok y) l ys.
Proof.
  revert ys. induction l as [|x l IH]; intros ys; cbn [rmapM].
  - split; [intros [= <-]; constructor | by intros ->%Forall2_nil_inv_l].
  - split.
    + destruct (f x) as [y|e] eqn:Hx; rsimpl; [|done].
      destruct (rmapM f l) as [ys'|e] eqn:Hl; rsimpl; [|done].
      intros [= <-]. constructor; [done|]. by apply IH.
    + intros (y & ys' & Hx & Hl & ->)%Forall2_cons_inv_l.
      rewrite Hx. rsimpl. apply IH in Hl. by rewrite Hl.
Qed.

Lemma rmapM_app {A B} (f : A → result B) (l1 l2 : list A) :
  rmapM f (l1 ++ l2) = (ys1 ← rmapM f l1; ys2 ← rmapM f l2; Ok (ys1 ++ ys2)%list).
Proof.
  induction l1 as [|x l1 IH]; cbn [rmapM app]; rsimpl.
  - by destruct (rmapM f l2).
  - destruct (f x) as [y|e]; rsimpl; [|done].
    rewrite IH. destruct (rmapM f l1) as [ys1|e]; rsimpl; [|done].
    by destruct (rmapM f l2).
Qed.

Lemma normalize_sub_ok_non_nullish (r : value) (q : quote) :
  normalize_sub r = Ok q → is_nullish r = false.
Proof.
  intros H. destruct (is_nullish r) eqn:Hr; [|done].
  by rewrite normalize_sub_nullish in H.
Qed.

Lemma normalize_sub_quote (r : value) (q : quote) :
  normalize_sub r = Ok q →
  mie q = field r "meals" ∧ number_or_text (lodging q).
Proof.
  intros H. pose proof (normalize_sub_ok_non_nullish r q H) as Hr.
  destruct (breakdown r) as [entries|] eqn:Hb.
  - rewrite (normalize_sub_breakdown r entries Hr Hb) in H.
    destruct (rmapM _ entries) as [prices|]; rsimpl in H; [|done].
    destruct (math_min prices) as [lo|]; rsimpl in H; [|done].
    destruct (math_max prices) as [hi|]; rsimpl in H; [|done].
    injection H as <-. split; [done|]. simpl.
    destruct (num_strict_eq lo hi); [left | right]; eauto.
  - rewrite (normalize_sub_no_breakdown r Hr Hb) in H.
    injection H as <-. split; [done|]. right. eauto.
Qed.

Lemma normalize_main_rate_list (mainItem : value) (g : list quote) :
  normalize_main mainItem = Ok g →
  Forall2 (λ r q, normalize_sub r = Ok q) (rate_list mainItem) g.
Proof.
  unfold normalize_main, rate_list. intros H.
  destruct (is_nullish mainItem) eqn:Hn.
  { by rewrite get_nullish in H. }
  rewrite get_non_nullish in H by done. rsimpl in H.
  destruct (js_or (field mainItem "rate") (VArr [])); try done.
  by apply rmapM_Forall2.
Qed.

Lemma normalizeRates_sub_records (rawRates : value) (quotes : list quote) :
  normalizeRates rawRates = Ok quotes →
  Forall2 (λ r q, normalize_sub r = Ok q) (sub_records rawRates) quotes.
Proof.
  unfold normalizeRates, sub_records.
  generalize (match rawRates with VArr items => items | _ => [rawRates] end).
  intros list H.
  destruct (rmapM normalize_main list) as [groups|] eqn:Hg; rsimpl in H; [|done].
  injection H as <-. apply rmapM_Forall2 in Hg.
  induction Hg as [|item g list groups Hitem _ IH]; [constructor|].
  rewrite fmap_cons. cbn [concat].
  apply Forall2_app; [by apply normalize_main_rate_list | done].
Qed.

(** [normalizeRates] produces one quote per sub-record, in the order it
    meets them, each with the sub-record's [meals] as it is. *)
Theorem normalizeRates_one_quote_per_sub_record (rawRates : value) (quotes : list quote) :
  normalizeRates rawRates = Ok quotes →
  length quotes = length (sub_records rawRates) ∧
  mie <$> quotes = (λ r, field r "meals") <$> sub_records rawRates.
Proof.
  intros H%normalizeRates_sub_records.
  split; [symmetry; by eapply Forall2_length|].
  induction H as [|r q rs qs Hq _ IH]; [done|].
  rewrite !fmap_cons, IH. f_equal. by apply normalize_sub_quote in Hq as [-> _].
Qed.

Lemma normalizeRates_one_quote_per_sub_record_scenario :
  length [Quote (dollars 150) (dollars 79)] =
    length (sub_records (payload_of (sub_record (dollars 79) [dollars 150; dollars 150]))) ∧
  mie <$> [Quote (dollars 150) (dollars 79)] =
    (λ r, field r "meals") <$>
      sub_records (payload_of (sub_record (dollars 79) [dollars 150; dollars 150])).
Proof.
  exact (normalizeRates_one_quote_per_sub_record
           (payload_of (sub_record (dollars 79) [dollars 150; dollars 150]))
           [Quote (dollars 150) (dollars 79)] eq_refl).
Defined.

(** The lodging of every quote [normalizeRates] produces is a number or a
    text, never [undefined], [null], a list or an object. *)
Theorem normalizeRates_lodging_number_or_text (rawRates : value) (quotes : list quote) :
  normalizeRates rawRates = Ok quotes →
  Forall (λ q, number_or_text (lodging q)) quotes.
Proof.
  intros H%normalizeRates_sub_records.
  induction H as [|r q rs qs Hq _ IH]; constructor; [|done].
  by apply normalize_sub_quote in Hq as [_ ?].
Qed.

Lemma normalizeRates_lodging_number_or_text_scenario :
  Forall (λ q, number_or_text (lodging q)) [Quote (VStr "80-120") (dollars 79)].
Proof.
  exact (normalizeRates_lodging_number_or_text
           (payload_of (sub_record (dollars 79) [dollars 80; dollars 120]))
           [Quote (VStr "80-120") (dollars 79)] eq_refl).
Defined.

(** Normalising a list of records is normalising its parts one after the
    other: the quotes of [xs ++ ys] are those of [xs] followed by those
    of [ys], and the first part that throws decides the error. *)
Theorem normalizeRates_app (xs ys : list value) :
  normalizeRates (VArr (xs ++ ys)) =
    (a ← normalizeRates (VArr xs); b ← normalizeRates (VArr ys); Ok (a ++ b)%list).
Proof.
  unfold normalizeRates. rewrite rmapM_app.
  destruct (rmapM normalize_main xs) as [g1|]; rsimpl; [|done].
  destruct (rmapM normalize_main ys) as [g2|]; rsimpl; [|done].
  by rewrite concat_app.
Qed.

(** ** Flat and seasonal lodging *)












(** ** Deduplication, further *)

Lemma fresh_app (seen : gset string) (l1 l2 : list quote) :
  fresh seen (l1 ++ l2) =
    (fresh seen l1 ++ fresh (seen ∪ list_to_set (key_of <$> l1)) l2)%list.
Proof.
  revert seen. induction l1 as [|r l1 IH]; intros seen; cbn [app fresh].
  - f_equal. set_solver.
  - rewrite fmap_cons, list_to_set_cons.
    destruct (decide (key_of r ∈ seen)) as [Hin|Hout].
    + rewrite IH. do 2 f_equal. set_solver.
    + rewrite IH. cbn [app]. do 3 f_equal. set_solver.
Qed.

Lemma fresh_all_seen (seen : gset string) (l : list quote) :
  (∀ q, q ∈ l → key_of q ∈ seen) → fresh seen l = [].
Proof.
  induction l as [|r l IH]; intros H; cbn [fresh]; [done|].
  rewrite decide_True by apply H, list_elem_of_here.
  apply IH. intros q Hq. by apply H, list_elem_of_further.
Qed.

Lemma fresh_length_seen (seen : gset string) (l : list quote) (q : quote) :
  q ∈ l → key_of q ∈ seen → (length (fresh seen l) < length l)%nat.
Proof.
  revert seen. induction l as [|r l IH]; intros seen Hq Hseen.
  { by apply elem_of_nil in Hq. }
  cbn [fresh length].
  pose proof (sublist_length _ _ (fresh_sublist seen l)) as Hle.
  destruct (decide (key_of r ∈ seen)); [lia|]. cbn [length].
  apply elem_of_cons in Hq as [->|Hq]; [done|].
  apply ->Nat.succ_lt_mono. apply IH; [done | set_solver].
Qed.

Lemma fresh_length_lt (seen : gset string) (l : list quote) :
  ¬ NoDup (key_of <$> l) → (length (fresh seen l) < length l)%nat.
Proof.
  revert seen. induction l as [|r l IH]; intros seen Hdup.
  { destruct Hdup. constructor. }
  rewrite fmap_cons, NoDup_cons in Hdup. cbn [fresh length].
  pose proof (sublist_length _ _ (fresh_sublist seen l)) as Hle.
  destruct (decide (key_of r ∈ seen)); [lia|]. cbn [length].
  apply ->Nat.succ_lt_mono.
  destruct (decide (key_of r ∈ key_of <$> l)) as [Hin|Hout].
  - apply list_elem_of_fmap in Hin as (q & Hkey & Hq).
    apply (fresh_length_seen _ l q Hq). rewrite <- Hkey. set_solver.
  - apply IH. naive_solver.
Qed.

(** A list is returned unchanged by [dedupeRates] exactly when the keys of
    its quotes are pairwise distinct. *)
Theorem dedupeRates_fixed_iff_distinct_keys (L : list quote) (ks : list string) :
  rmapM quote_key L = Ok ks →
  dedupeRates L = Ok L ↔ NoDup ks.
Proof.
  intros Hks. pose proof (rmapM_ok_Forall _ _ _ Hks) as Hall.
  rewrite (rmapM_quote_key_inv L ks Hks), (dedupeRates_fresh L Hall).
  split.
  - intros [= Heq]. destruct (decide (NoDup (key_of <$> L))) as [|Hdup]; [done|].
    apply (fresh_length_lt ∅) in Hdup. rewrite Heq in Hdup. lia.
  - intros Hnd. f_equal. apply fresh_id; [done|]. intros; apply not_elem_of_empty.
Qed.

Lemma dedupeRates_fixed_iff_distinct_keys_example :
  dedupeRates [Quote (dollars 150) (dollars 79); Quote (VStr "80-120") (dollars 79)] =
    Ok [Quote (dollars 150) (dollars 79); Quote (VStr "80-120") (dollars 79)] ↔
  NoDup ["150-79"; "80-120-79"].
Proof.
  exact (dedupeRates_fixed_iff_distinct_keys
           [Quote (dollars 150) (dollars 79); Quote (VStr "80-120") (dollars 79)]
           ["150-79"; "80-120-79"] eq_refl).
Defined.

(** Quotes appended after a list change nothing in its deduplication
    when each of their keys already occurs in the list; in particular
    the rates of a zip listed twice show once. *)
Theorem dedupeRates_ignores_repeats (L L' : list quote) (ks ks' : list string) :
  rmapM quote_key L = Ok ks → rmapM quote_key L' = Ok ks' →
  (∀ k, k ∈ ks' → k ∈ ks) →
  dedupeRates (L ++ L') = dedupeRates L.
Proof.
  intros Hks Hks' Hsub.
  pose proof (rmapM_ok_Forall _ _ _ Hks) as Hall.
  pose proof (rmapM_ok_Forall _ _ _ Hks') as Hall'.
  rewrite (dedupeRates_fresh L Hall).
  rewrite (dedupeRates_fresh (L ++ L')) by by apply Forall_app.
  rewrite fresh_app, (fresh_all_seen _ L'); [by rewrite app_nil_r|].
  intros q Hq. apply elem_of_union_r, elem_of_list_to_set.
  rewrite <- (rmapM_quote_key_inv L ks Hks). apply Hsub.
  rewrite (rmapM_quote_key_inv L' ks' Hks'). by apply list_elem_of_fmap_2.
Qed.

Lemma dedupeRates_ignores_repeats_example :
  dedupeRates ([Quote (dollars 150) (dollars 79)] ++ [Quote (dollars 150) (dollars 79)]) =
  dedupeRates [Quote (dollars 150) (dollars 79)].
Proof.
  refine (dedupeRates_ignores_repeats
            [Quote (dollars 150) (dollars 79)] [Quote (dollars 150) (dollars 79)]
            ["150-79"] ["150-79"] eq_refl eq_refl _).
  intros k Hk. exact Hk.
Defined.

(** ** Neighbour discovery, further *)

Lemma collect_zones_ok_kept (elements : list value) (targetZip : value)
    (zones : list zone) :
  collect_zones elements targetZip [] [] = Ok zones →
  Forall (λ el, is_nullish el = false) elements ∧ zones = kept elements targetZip [].
Proof.
  intros H.
  destruct (decide (Forall (λ el, is_nullish el = false) elements)) as [Hall|Hex].
  - rewrite (collect_zones_kept elements targetZip [] [] Hall) in H.
    by injection H as <-.
  - apply not_Forall_Exists in Hex; [|intros el; apply _].
    rewrite collect_zones_nullish in H; [done|].
    eapply Exists_impl; [done|]. intros el. simpl. by destruct (is_nullish el).
Qed.

Lemma set_has_elem (seen : list value) (code : value) :
  set_has seen code = true → code ∈ seen.
Proof.
  unfold set_has. intros (c & Hc & Hsame)%existsb_exists.
  apply same_value_zero_eq in Hsame as ->. by apply list_elem_of_In.
Qed.

Lemma kept_covers (elements : list value) (targetZip : value) (seen : list value)
    (el : value) :
  el ∈ elements →
  to_boolean (postal_code_of el) = true →
  strict_eq (postal_code_of el) targetZip = false →
  postal_code_of el ∈ seen ∨
  ∃ z, z ∈ kept elements targetZip seen ∧ postalCode z = postal_code_of el.
Proof.
  intros Hel Ht Hs. revert seen.
  induction elements as [|el' l IH]; intros seen; [by apply elem_of_nil in Hel|].
  cbn [kept]. apply elem_of_cons in Hel as [<-|Hel].
  - rewrite Ht, Hs. simpl.
    destruct (set_has seen (postal_code_of el)) eqn:Hseen.
    + left. by apply set_has_elem.
    + right. eexists. split; [apply list_elem_of_here | done].
  - destruct (negb _ || _ || _).
    + by apply IH.
    + destruct (IH Hel (seen ++ [postal_code_of el'])%list) as [Hin|(z & Hz & Hcode)].
      * apply elem_of_app in Hin as [Hin|Hin%list_elem_of_singleton]; [by left|].
        right. eexists. split; [apply list_elem_of_here | done].
      * right. exists z. split; [by apply list_elem_of_further | done].
Qed.

(** The loop of [fetchSurroundingZips] misses no postal code: every
    element whose code is truthy and is not the target's has a zone with
    its code in the result. *)
Theorem surrounding_zips_cover_every_code (elements : list value)
    (targetZip : value) (zones : list zone) (el : value) :
  collect_zones elements targetZip [] [] = Ok zones →
  el ∈ elements →
  to_boolean (postal_code_of el) = true →
  strict_eq (postal_code_of el) targetZip = false →
  ∃ z, z ∈ zones ∧ postalCode z = postal_code_of el.
Proof.
  intros [_ ->]%collect_zones_ok_kept Hel Ht Hs.
  destruct (kept_covers elements targetZip [] el Hel Ht Hs) as [Hin|?]; [|done].
  by apply elem_of_nil in Hin.
Qed.

Lemma surrounding_zips_cover_every_code_example :
  ∃ z, z ∈ [Zone (VStr "78702") VNull VUndef] ∧
       postalCode z = postal_code_of (element (VStr "78702") (VArr [])).
Proof.
  refine (surrounding_zips_cover_every_code
            [element (VStr "78702") VNull; element (VStr "78702") (VArr [])]
            (VStr "78701") [Zone (VStr "78702") VNull VUndef]
            (element (VStr "78702") (VArr [])) eq_refl _ eq_refl eq_refl).
  apply list_elem_of_further, list_elem_of_here.
Defined.

(** ** Shapes *)

Lemma rmapM_points (pts : list value) :
  if forallb (λ pt, negb (is_nullish pt)) pts
  then rmapM (λ pt, lat ← get pt "lat"; lon ← get pt "lon"; Ok (lat, lon)) pts =
         Ok ((λ pt, (field pt "lat", field pt "lon")) <$> pts)
  else rmapM (λ pt, lat ← get pt "lat"; lon ← get pt "lon"; Ok (lat, lon)) pts =
         Throw TypeError.
Proof.
  induction pts as [|pt l IH]; [done|].
  cbn [forallb rmapM]. destruct (is_nullish pt) eqn:Hpt; simpl.
  - by rewrite (get_nullish pt "lat").
  - rewrite (get_non_nullish pt "lat"), (get_non_nullish pt "lon") by done. rsimpl.
    destruct (forallb _ l); by rewrite IH.
Qed.

(** [toLeafletShape]: GeoJSON, when the zone has some, wins over the
    geometry; a geometry that is a list gives a polygon with one point
    per entry, [(lat, lon)] in this order, no shape when the list is
    empty, and a TypeError when an entry is [null] or [undefined]. *)
Theorem toLeafletShape_shapes :
  (∀ z, to_boolean (geojson z) = true →
     toLeafletShape z = Ok (Some (GeoJSON (geojson z)))) ∧
  (∀ z pts, to_boolean (geojson z) = false → geometry z = VArr pts →
     toLeafletShape z =
       if forallb (λ pt, negb (is_nullish pt)) pts then
         Ok (match pts with
             | [] => None
             | _ => Some (Polygon ((λ pt, (field pt "lat", field pt "lon")) <$> pts))
             end)
       else Throw TypeError).
Proof.
  split.
  - intros z Hg. unfold toLeafletShape. by rewrite Hg.
  - intros z pts Hg Hgeom. unfold toLeafletShape. rewrite Hg, Hgeom.
    destruct pts as [|pt l]; [done|].
    pose proof (rmapM_points (pt :: l)) as Hpts.
    cbn [to_boolean get String.eqb]. rsimpl.
    change (to_boolean (VNum (Fin (Z.of_nat (length (pt :: l)))))) with true.
    cbv iota.
    destruct (forallb _ (pt :: l)); by rewrite Hpts.
Qed.

Lemma zone_layer_some (z : zone) (l : layer) :
  geojson z = VUndef → zone_layer z = Some l →
  color l = "#16a34a" ∧ (∃ pts, drawn l = Polygon pts) ∧
  on_click l = Some (BindPopup (postalCode z)).
Proof.
  unfold zone_layer, toLeafletShape. intros ->. simpl.
  destruct (to_boolean (geometry z)); [|done].
  destruct (get (geometry z) "length") as [len|]; rsimpl; [|done].
  destruct (to_boolean len); [|done].
  destruct (geometry z); try done.
  destruct (rmapM _ _) as [points|]; rsimpl; [|done].
  intros [= <-]. eauto.
Qed.

(** ** What a computation leaves alone *)

Lemma preserves_ret {A B} (part : page → B) (a : A) : preserves part (mret a : M A).
Proof. by intros p. Qed.

Lemma preserves_lift {A B} (part : page → B) (r : result A) : preserves part (lift r).
Proof. by intros p. Qed.

Lemma preserves_throw {A B} (part : page → B) (e : error) :
  preserves part (throw e : M A).
Proof. by intros p. Qed.

Lemma preserves_bind {A B C} (part : page → C) (m : M A) (k : A → M B) :
  preserves part m → (∀ a, preserves part (k a)) → preserves part (m ≫= k).
Proof.
  intros Hm Hk p. munfold. specialize (Hm p).
  destruct (m p) as [[a|e] p']; simpl in *; [|done].
  by rewrite Hk.
Qed.

Lemma preserves_try_catch {A C} (part : page → C) (body : M A) (recover : error → M A) :
  preserves part body → (∀ e, preserves part (recover e)) →
  preserves part (try_catch body recover).
Proof.
  intros Hm Hk p. unfold try_catch. specialize (Hm p).
  destruct (body p) as [[a|e] p']; simpl in *; [done|].
  by rewrite Hk.
Qed.

Lemma preserves_modify {C} (part : page → C) (f : page → page) :
  (∀ p, part (f p) = part p) → preserves part (modify f).
Proof. intros H p. apply H. Qed.

Lemma preserves_fetch {C} (part : page → C) (net : network) (r : request) :
  (∀ p, part (log_request r p) = part p) → preserves part (fetch net r).
Proof. intros H p. apply H. Qed.

Lemma preserves_json {C} (part : page → C) (res : response) : preserves part (json res).
Proof. unfold json. destruct (body res); by intros p. Qed.

Lemma preserves_for_each {A C} (part : page → C) (f : A → M unit) (l : list A) :
  (∀ x, preserves part (f x)) → preserves part (for_each f l).
Proof.
  intros H. induction l as [|x l IH]; simpl.
  - apply preserves_ret.
  - apply preserves_bind; [apply H | by intros _].
Qed.

Lemma preserves_read {A C} (part : page → C) (f : page → A) :
  preserves part (λ p, (Ok (f p), p)).
Proof. by intros p. Qed.

Ltac preserves_step :=
  first
    [ apply preserves_ret
    | apply preserves_lift
    | apply preserves_throw
    | apply preserves_json
    | apply preserves_read
    | apply preserves_fetch; by intros ?
    | apply preserves_modify; by intros ?
    | apply preserves_bind; [|intros ?]
    | apply preserves_try_catch; [|intros ?]
    | apply preserves_for_each; intros ?
    | match goal with |- preserves _ (if ?c then _ else _) => destruct c end
    | match goal with |- preserves _ (match ?x with _ => _ end) => destruct x end ].

(** ** Rate requests *)

Lemma fetchPerDiem_sends_one_request_page (net : network) (zip : string) (p : page) :
  snd (fetchPerDiem net (VStr zip) p) =
    log_request (RatesOf zip (default "2025" (yearSelect p))) p.
Proof.
  unfold fetchPerDiem, try_catch, fetch, json. munfold. simpl.
  destruct (net _) as [|[[] [data|]]]; simpl; try done.
  destruct (raw_rates data) as [rawRates|e]; simpl; [|done].
  by destruct (normalizeRates rawRates).
Qed.

(** A call of [fetchPerDiem] for a postal code changes nothing on the
    page but the log of requests, to which it adds exactly one rate
    request, for that code and for the selected year (["2025"] without a
    selector), whatever the service answers. *)
Theorem fetchPerDiem_sends_one_request (net : network) (zip : string) (p : page) :
  snd (fetchPerDiem net (VStr zip) p) =
    log_request (RatesOf zip (default "2025" (yearSelect p))) p.
Proof. apply fetchPerDiem_sends_one_request_page. Qed.

(** ** Popups *)

Lemma dedupeRates_again (rates unique : list quote) :
  dedupeRates rates = Ok unique → dedupeRates unique = Ok unique.
Proof.
  intros H. destruct (rmapM quote_key rates) as [ks|e] eqn:Hks.
  - pose proof (rmapM_ok_Forall _ _ _ Hks) as Hall.
    rewrite (dedupeRates_fresh rates Hall) in H. injection H as <-.
    rewrite (dedupeRates_fresh _ (fresh_keys_exist rates Hall)). f_equal.
    apply fresh_id; [apply fresh_keys_NoDup | intros; apply not_elem_of_empty].
  - unfold dedupeRates in H. by rewrite (dedupe_loop_throw rates ∅ [] e Hks) in H.
Qed.

(** Every path that shows rates shows the deduplicated list: the popup
    content and the rate panel are the same for a list of quotes and for
    its deduplication. *)
Theorem rendering_shows_deduplicated_rates (zip : value) (rates unique : list quote) :
  dedupeRates rates = Ok unique →
  buildPopupContent zip rates = buildPopupContent zip unique ∧
  ∀ p, displayRates zip rates p = displayRates zip unique p.
Proof.
  intros H. pose proof (dedupeRates_again rates unique H) as H'. split.
  - unfold buildPopupContent. by rewrite H, H'.
  - intros p. unfold displayRates. munfold. by rewrite H, H'.
Qed.

Lemma rendering_shows_deduplicated_rates_example :
  buildPopupContent (VStr "78701")
    [Quote (dollars 150) (dollars 79); Quote (dollars 150) (dollars 79)] =
  buildPopupContent (VStr "78701") [Quote (dollars 150) (dollars 79)] ∧
  ∀ p, displayRates (VStr "78701")
         [Quote (dollars 150) (dollars 79); Quote (dollars 150) (dollars 79)] p =
       displayRates (VStr "78701") [Quote (dollars 150) (dollars 79)] p.
Proof.
  exact (rendering_shows_deduplicated_rates (VStr "78701")
           [Quote (dollars 150) (dollars 79); Quote (dollars 150) (dollars 79)]
           [Quote (dollars 150) (dollars 79)] eq_refl).
Defined.

(** ** The rate panel *)

Lemma mbind_ok_inv {A B} (m : M A) (k : A → M B) (p p' : page) (b : B) :
  (m ≫= k) p = (Ok b, p') → ∃ a p1, m p = (Ok a, p1) ∧ k a p1 = (Ok b, p').
Proof.
  munfold. destruct (m p) as [[a|e] p1]; [eauto | done].
Qed.

Lemma set_rates_set_rates (shown shown' : bool) (items items' : list string) (p : page) :
  set_rates shown' items' (set_rates shown items p) = set_rates shown' items' p.
Proof. by destruct p. Qed.

Lemma for_each_rate_lines (zip : value) (unique : list quote) (p p' : page) :
  for_each (λ r, item ← lift (rate_line zip r); append_rate item) unique p = (Ok (), p') →
  ∃ items, length items = length unique ∧
           p' = set_rates (ratePanel p) (rateList p ++ items) p.
Proof.
  revert p. induction unique as [|r l IH]; intros p; cbn [for_each].
  - intros [= <-]. exists []. split; [done|]. rewrite app_nil_r. by destruct p.
  - intros (u & p1 & Hr & Hrest)%mbind_ok_inv.
    apply mbind_ok_inv in Hr as (item & p0 & Hitem & Happ).
    unfold lift in Hitem. injection Hitem as Hitem <-.
    unfold append_rate, modify in Happ. injection Happ as _ <-.
    apply IH in Hrest as (items & Hlen & ->).
    exists (item :: items). split; [simpl; by rewrite Hlen|].
    destruct p; simpl. by rewrite <- app_assoc.
Qed.

Lemma displayRates_returns_page (zip : value) (rates : list quote) (p p' : page) :
  displayRates zip rates p = (Ok (), p') →
  ∃ unique items,
    dedupeRates rates = Ok unique ∧
    length items = Nat.max 1 (length unique) ∧
    (unique = [] → items = ["No per diem data for this zip."]) ∧
    p' = set_rates true items p.
Proof.
  unfold displayRates.
  intros (u & p1 & Hclear & Hrest)%mbind_ok_inv.
  unfold modify in Hclear. injection Hclear as _ <-.
  apply mbind_ok_inv in Hrest as (unique & p2 & Hu & Hrest).
  unfold lift in Hu. injection Hu as Hu <-.
  destruct unique as [|r l].
  - unfold modify in Hrest. injection Hrest as <-.
    exists [], ["No per diem data for this zip."].
    by rewrite set_rates_set_rates.
  - apply for_each_rate_lines in Hrest as (items & Hlen & ->).
    exists (r :: l), items. rewrite set_rates_set_rates. simpl in *.
    repeat split; [done | lia | done].
Qed.


(** When [displayRates] returns, the rate panel is shown and its list is
    not blank: it holds one line per deduplicated quote, or the one
    placeholder when there is none; lines of an earlier run are gone and
    the rest of the page is as before. *)
Theorem displayRates_never_blank (zip : value) (rates : list quote) (p p' : page) :
  displayRates zip rates p = (Ok (), p') →
  ∃ unique items,
    dedupeRates rates = Ok unique ∧
    length items = Nat.max 1 (length unique) ∧
    (unique = [] → items = ["No per diem data for this zip."]) ∧
    p' = set_rates true items p.
Proof. apply displayRates_returns_page. Qed.

Lemma displayRates_never_blank_example :
  ∃ unique items,
    dedupeRates [Quote (dollars 150) (dollars 79)] = Ok unique ∧
    length items = Nat.max 1 (length unique) ∧
    (unique = [] → items = ["No per diem data for this zip."]) ∧
    set_rates true ["Zip 78701: Lodging $150 / M&IE $79"] (initial_page None) =
      set_rates true items (initial_page None).
Proof.
  exact (displayRates_never_blank (VStr "78701") [Quote (dollars 150) (dollars 79)]
           (initial_page None)
           (set_rates true ["Zip 78701: Lodging $150 / M&IE $79"] (initial_page None))
           eq_refl).
Defined.

(** ** Neighbour layers *)

Lemma set_surrounding_id (p : page) : set_surrounding (surroundingLayer p) p = p.
Proof. by destruct p. Qed.

Lemma render_zone_layer (z : zone) (p : page) :
  render_zone z p =
    (Ok (), set_surrounding (surroundingLayer p ++ option_list (zone_layer z)) p).
Proof.
  unfold render_zone, zone_layer, try_catch. munfold.
  destruct (toLeafletShape z) as [[s|]|e]; simpl;
    try (by rewrite app_nil_r, set_surrounding_id).
  done.
Qed.

Lemma for_each_render_layers (zones : list zone) (p : page) :
  for_each render_zone zones p =
    (Ok (), set_surrounding (surroundingLayer p ++ omap zone_layer zones) p).
Proof.
  revert p. induction zones as [|z zs IH]; intros p; cbn [for_each].
  - munfold. simpl. by rewrite app_nil_r, set_surrounding_id.
  - munfold. rewrite render_zone_layer, IH. f_equal.
    destruct p; simpl. unfold set_surrounding; simpl. f_equal.
    rewrite <- app_assoc. f_equal. by destruct (zone_layer z).
Qed.

Lemma fetchSurroundingZips_page (net : network) (center : coordinate * coordinate)
    (targetZip : value) (p : page) :
  snd (fetchSurroundingZips net center targetZip p) =
    log_request (PostalAreasAround 15000 (fst center) (snd center)) p.
Proof.
  unfold fetchSurroundingZips, fetch, json. munfold.
  destruct (net _) as [|[[] [data|]]]; simpl; try done.
  destruct (get data "elements") as [elements|]; simpl; [|done].
  by destruct (iterate _).
Qed.

Lemma renderSurrounding_page (net : network) (center : coordinate * coordinate)
    (targetZip : value) (p : page) :
  ∃ zones st,
    (zones = [] ∨ ∃ elements, collect_zones elements targetZip [] [] = Ok zones) ∧
    snd (renderSurrounding net center targetZip p) =
      set_surrounding (surroundingLayer p ++ omap zone_layer zones)
        (log_request (PostalAreasAround 15000 (fst center) (snd center))
           (set_status st p)).
Proof.
  unfold renderSurrounding, updateStatus. munfold.
  set (p1 := set_status _ p).
  pose proof (fetchSurroundingZips_page net center targetZip p1) as Hpage.
  pose proof (fetchSurroundingZips_result net center targetZip p1) as Hres.
  destruct (fetchSurroundingZips net center targetZip p1) as [[zones|e] p2];
    simpl in Hpage, Hres; subst p2.
  - destruct zones as [|z zs].
    + exists [], (Status (Text "No nearby postal boundaries found. Showing target only.")
                      false false).
      split; [by left|]. simpl. destruct p; simpl. unfold set_surrounding; simpl.
      by rewrite app_nil_r.
    + exists (z :: zs), (Status (Text "Loading surrounding Zip Codes...") false true).
      split; [apply Hres; done|].
      by rewrite for_each_render_layers.
  - exists [], (Status (Text "Loading surrounding Zip Codes...") false true).
    split; [by left|]. simpl. destruct p; simpl. unfold set_surrounding; simpl.
    by rewrite app_nil_r.
Qed.

Lemma ForallOrdPairs_lookup {A} (R : A → A → Prop) (l : list A) (i j : nat) (x y : A) :
  ForallOrdPairs R l → (i < j)%nat → l !! i = Some x → l !! j = Some y → R x y.
Proof.
  intros H. revert i j. induction H as [|a l Ha _ IH]; intros i j Hij; [done|].
  destruct i as [|i], j as [|j]; try lia; simpl.
  - intros [= <-] Hy. rewrite List.Forall_forall in Ha. apply Ha.
    apply list_elem_of_In, list_elem_of_lookup. eauto.
  - apply IH. lia.
Qed.

Lemma ForallOrdPairs_omap {A B} (R : A → A → Prop) (R' : B → B → Prop)
    (f : A → option B) (l : list A) :
  (∀ a b a' b', f a = Some a' → f b = Some b' → R a b → R' a' b') →
  ForallOrdPairs R l → ForallOrdPairs R' (omap f l).
Proof.
  intros Hf H. induction H as [|a l Ha _ IH]; simpl; [constructor|].
  destruct (f a) as [a'|] eqn:Hfa; [|done].
  constructor; [|done].
  apply List.Forall_forall. intros b' Hb'.
  apply list_elem_of_In, list_elem_of_omap in Hb' as (b & Hb & Hfb).
  rewrite List.Forall_forall in Ha. eapply Hf; [done.. |].
  by apply Ha, list_elem_of_In.
Qed.

Lemma kept_pairs (elements : list value) (targetZip : value) (seen : list value) :
  ForallOrdPairs
    (λ z z', same_value_zero (postalCode z') (postalCode z) = false)
    (kept elements targetZip seen).
Proof.
  revert seen. induction elements as [|el l IH]; intros seen; cbn [kept].
  { constructor. }
  destruct (negb _ || _ || _); [apply IH|].
  constructor; [|apply IH].
  apply List.Forall_forall. intros z' Hz'%list_elem_of_In.
  apply kept_first in Hz' as ((_ & _ & Hseen) & _).
  rewrite set_has_app in Hseen. by apply orb_false_iff in Hseen as [_ ?].
Qed.

Lemma kept_zone_shape (elements : list value) (targetZip : value) (seen : list value)
    (z : zone) :
  z ∈ kept elements targetZip seen →
  geojson z = VUndef ∧ to_boolean (postalCode z) = true ∧
  strict_eq (postalCode z) targetZip = false.
Proof.
  intros ((Ht & Hs & _) & _ & el & _ & _ & -> & _)%kept_first. done.
Qed.

(** Whatever the regional index answers, [renderSurrounding] only adds
    layers after those already there, and each layer it adds is a green
    polygon whose click handler is bound to a truthy postal code that is
    not the target's; no two of them are bound to the same code. *)
Theorem renderSurrounding_layers (net : network) (center : coordinate * coordinate)
    (targetZip : value) (p : page) :
  ∃ new,
    surroundingLayer (snd (renderSurrounding net center targetZip p)) =
      (surroundingLayer p ++ new)%list ∧
    Forall (λ l, color l = "#16a34a" ∧ (∃ pts, drawn l = Polygon pts) ∧
                 ∃ code, on_click l = Some (BindPopup code) ∧
                         to_boolean code = true ∧
                         strict_eq code targetZip = false) new ∧
    (∀ i j li lj ci cj, i ≠ j → new !! i = Some li → new !! j = Some lj →
       on_click li = Some (BindPopup ci) → on_click lj = Some (BindPopup cj) →
       same_value_zero ci cj = false).
Proof.
  destruct (renderSurrounding_page net center targetZip p) as (zones & st & Hzones & ->).
  exists (omap zone_layer zones). split; [by destruct p|].
  assert (∃ elements, zones = kept elements targetZip []) as [elements ->].
  { destruct Hzones as [->|[elements Hel]]; [by exists []|].
    exists elements. by apply collect_zones_ok_kept in Hel as [_ ->]. }
  split.
  - apply Forall_forall. intros l (z & Hz & Hl)%list_elem_of_omap.
    apply kept_zone_shape in Hz as (Hgeo & Ht & Hs).
    apply zone_layer_some in Hl as (? & ? & ?); [|done]. eauto 10.
  - assert (ForallOrdPairs
              (λ l l', ∀ c c', on_click l = Some (BindPopup c) →
                               on_click l' = Some (BindPopup c') →
                               same_value_zero c' c = false)
              (omap zone_layer (kept elements targetZip []))) as Hpairs.
    { eapply ForallOrdPairs_omap; [|apply kept_pairs].
      intros z z' l l' Hl Hl' Hzz' c c' Hc Hc'.
      unfold zone_layer in Hl, Hl'.
      destruct (toLeafletShape z) as [[s|]|]; try done.
      destruct (toLeafletShape z') as [[s'|]|]; try done.
      injection Hl as <-. injection Hl' as <-. simpl in Hc, Hc'.
      injection Hc as <-. injection Hc' as <-. done. }
    intros i j li lj ci cj Hij Hi Hj Hci Hcj.
    destruct (decide (i < j)%nat).
    + apply same_value_zero_sym.
      by apply (ForallOrdPairs_lookup _ _ i j li lj Hpairs).
    + apply (ForallOrdPairs_lookup _ _ j i lj li Hpairs); [lia | done..].
Qed.

(** Whatever the regional index answers and however many neighbours it
    lists, [renderSurrounding] sends one request, the regional-index
    query around the centre with the 15 km radius, and no rate request;
    it leaves the target layer, the map view and the rate panel as they
    are. *)
Theorem renderSurrounding_sends_only_the_index_query (net : network)
    (center : coordinate * coordinate) (targetZip : value) (p : page) :
  let p' := snd (renderSurrounding net center targetZip p) in
  sent p' = (sent p ++ [PostalAreasAround 15000 (fst center) (snd center)])%list ∧
  targetLayer p' = targetLayer p ∧ mapView p' = mapView p ∧
  ratePanel p' = ratePanel p ∧ rateList p' = rateList p.
Proof.
  destruct (renderSurrounding_page net center targetZip p) as (zones & st & _ & Hp).
  simpl. rewrite Hp. by destruct p.
Qed.

(** ** Clicks *)




(** ** Requests of a run *)

Lemma sends_within_weaken {A} (a b a' b' : nat) (m : M A) :
  sends_within a b m → (a ≤ a')%nat → (b ≤ b')%nat → sends_within a' b' m.
Proof.
  intros H Ha Hb p. destruct (H p) as (l & Hl & H1 & H2).
  exists l. split; [done|]. lia.
Qed.

Lemma sends_within_pure {A} (m : M A) : preserves sent m → sends_within 0 0 m.
Proof.
  intros H p. exists []. rewrite app_nil_r. split; [apply H | done].
Qed.

Lemma sends_within_fetch (net : network) (r : request) :
  sends_within (if is_rate_request r then 1 else 0) 1 (fetch net r).
Proof.
  intros p. exists [r]. split; [by destruct p|].
  rewrite filter_cons. destruct (is_rate_request r); simpl; split; lia.
Qed.

Lemma sends_within_fetch_rates (net : network) (zip year : string) :
  sends_within 1 1 (fetch net (RatesOf zip year)).
Proof. apply (sends_within_fetch net (RatesOf zip year)). Qed.

Lemma sends_within_fetch_other (net : network) (r : request) :
  is_rate_request r = false → sends_within 0 1 (fetch net r).
Proof. intros H. pose proof (sends_within_fetch net r) as Hr. by rewrite H in Hr. Qed.

Lemma sends_within_bind {A B} (a b c d : nat) (m : M A) (k : A → M B) :
  sends_within a b m → (∀ x, sends_within c d (k x)) →
  sends_within (a + c) (b + d) (m ≫= k).
Proof.
  intros Hm Hk p. munfold. destruct (Hm p) as (l1 & Hl1 & H1 & H2).
  destruct (m p) as [[x|e] p1]; simpl in *.
  - destruct (Hk x p1) as (l2 & Hl2 & H3 & H4).
    exists (l1 ++ l2)%list. rewrite Hl2, Hl1, app_assoc. split; [done|].
    rewrite filter_app, !length_app. lia.
  - exists l1. split; [done|]. lia.
Qed.

Lemma sends_within_try_catch {A} (a b c d : nat) (body : M A) (recover : error → M A) :
  sends_within a b body → (∀ e, sends_within c d (recover e)) →
  sends_within (a + c) (b + d) (try_catch body recover).
Proof.
  intros Hm Hk p. unfold try_catch. destruct (Hm p) as (l1 & Hl1 & H1 & H2).
  destruct (body p) as [[x|e] p1]; simpl in *.
  - exists l1. split; [done|]. lia.
  - destruct (Hk e p1) as (l2 & Hl2 & H3 & H4).
    exists (l1 ++ l2)%list. rewrite Hl2, Hl1, app_assoc. split; [done|].
    rewrite filter_app, !length_app. lia.
Qed.

Lemma sends_within_if {A} (a b c d : nat) (cond : bool) (m1 m2 : M A) :
  sends_within a b m1 → sends_within c d m2 →
  sends_within (Nat.max a c) (Nat.max b d) (if cond then m1 else m2).
Proof.
  intros H1 H2. destruct cond;
    (eapply sends_within_weaken; [done | lia | lia]).
Qed.

Ltac sends_pure :=
  solve [apply sends_within_pure;
         unfold displayRates, drawTarget, append_rate, clearLayers;
         repeat preserves_step].

Ltac sends_step known :=
  lazymatch goal with
  | |- sends_within _ _ (fetch _ (RatesOf _ _)) => apply sends_within_fetch_rates
  | |- sends_within _ _ (fetch _ _) => apply sends_within_fetch_other; reflexivity
  | |- sends_within _ _ (if _ then _ else _) => eapply sends_within_if
  | |- sends_within _ _ (try_catch _ _) => eapply sends_within_try_catch; [|intros ?]
  | |- sends_within _ _ (_ ≫= _) =>
      first [sends_pure | eapply sends_within_bind; [|intros ?]]
  | |- sends_within _ _ _ => first [known | sends_pure]
  end.

Ltac sends_bound known :=
  eapply sends_within_weaken; [repeat sends_step known | simpl; lia | simpl; lia].

Lemma sends_within_geocode (net : network) (query : string) :
  sends_within 0 1 (geocode net query).
Proof. unfold geocode. sends_bound fail. Qed.

Lemma sends_within_resolveZip (net : network) (place : value) :
  sends_within 0 1 (resolveZip net place).
Proof. unfold resolveZip. sends_bound fail. Qed.

Lemma sends_within_fetchZipBoundary (net : network) (zip : value) :
  sends_within 0 1 (fetchZipBoundary net zip).
Proof. unfold fetchZipBoundary. sends_bound fail. Qed.

Lemma sends_within_fetchPerDiem (net : network) (zip : value) :
  sends_within 1 1 (fetchPerDiem net zip).
Proof. unfold fetchPerDiem. sends_bound fail. Qed.

Lemma sends_within_renderSurrounding (net : network) (center : coordinate * coordinate)
    (targetZip : value) :
  sends_within 0 1 (renderSurrounding net center targetZip).
Proof.
  intros p.
  destruct (renderSurrounding_page net center targetZip p) as (zones & st & _ & Hp).
  exists [PostalAreasAround 15000 (fst center) (snd center)].
  rewrite Hp. split; [by destruct p | simpl; lia].
Qed.

Ltac sends_known :=
  first
    [ apply sends_within_geocode
    | apply sends_within_resolveZip
    | apply sends_within_fetchZipBoundary
    | apply sends_within_fetchPerDiem
    | apply sends_within_renderSurrounding ].

Lemma sends_within_updateView (net : network) (lat lon : coordinate) (zip label : value) :
  sends_within 1 3 (updateView net lat lon zip label).
Proof. unfold updateView. cbv zeta. sends_bound sends_known. Qed.

Lemma sends_within_search_run (net : network) (query : string) :
  sends_within 1 5 (search_run net query).
Proof.
  unfold search_run.
  sends_bound ltac:(first [sends_known | apply sends_within_updateView]).
Qed.

(** A search sends at most five requests, of which at most one is a rate
    request, however many neighbours the regional index lists: rates of
    neighbours are never fetched by the run itself. *)
Theorem search_sends_at_most_one_rate_request (net : network) (input : string)
    (p : page) :
  ∃ requests,
    sent (snd (search_submit net input p)) = (sent p ++ requests)%list ∧
    (length (filter (λ r, is_rate_request r = true) requests) ≤ 1)%nat ∧
    (length requests ≤ 5)%nat.
Proof.
  revert p. change (sends_within 1 5 (search_submit net input)).
  unfold search_submit. cbv zeta.
  sends_bound ltac:(apply sends_within_search_run).
Qed.

(** ** How a search ends *)

Ltac bind_inv H :=
  let a := fresh "a" in
  let q := fresh "q" in
  let Hm := fresh "Hm" in
  apply mbind_ok_inv in H as (a & q & Hm & H).

Lemma modify_inv (f : page → page) (p p' : page) (u : unit) :
  modify f p = (Ok u, p') → p' = f p.
Proof. by intros [= _ <-]. Qed.

Lemma lift_inv {A} (r : result A) (p p' : page) (a : A) :
  lift r p = (Ok a, p') → r = Ok a ∧ p' = p.
Proof. by intros [= -> <-]. Qed.

Lemma drawTarget_draws (geojson : value) (center : coordinate * coordinate)
    (zip : value) (p p' : page) (u : unit) :
  drawTarget geojson center zip p = (Ok u, p') →
  targetLayer p' ≠ None ∧ ratePanel p' = ratePanel p.
Proof.
  unfold drawTarget. destruct (to_boolean geojson).
  - intros H. bind_inv H. apply modify_inv in Hm as ->. apply modify_inv in H as ->.
    by destruct p.
  - intros ->%modify_inv. by destruct p.
Qed.

Lemma updateView_ok (net : network) (lat lon : coordinate) (zip label : value)
    (p p' : page) (u : unit) :
  updateView net lat lon zip label p = (Ok u, p') →
  statusEl p' = ready_status ∧ targetLayer p' ≠ None ∧ ratePanel p' = true.
Proof.
  unfold updateView. cbv zeta. intros H.
  bind_inv H. clear Hm.
  bind_inv H. clear Hm.
  bind_inv H. clear Hm.
  bind_inv H. clear Hm.
  bind_inv H. clear Hm.
  bind_inv H. apply drawTarget_draws in Hm as [Htarget _].
  bind_inv H.
  assert (targetLayer q5 = targetLayer q4) as Hrates.
  { pose proof (keeps_target_fetchPerDiem net zip q4) as Hk. by rewrite Hm in Hk. }
  bind_inv H. destruct a6.
  apply displayRates_returns_page in Hm0 as (unique & items & _ & _ & _ & ->).
  bind_inv H.
  pose proof (renderSurrounding_page net (lat, lon) zip (set_rates true items q5))
    as (zones & st & _ & Hpage).
  rewrite Hm0 in Hpage. simpl in Hpage. subst q6.
  unfold updateStatus in H. apply modify_inv in H as ->.
  split; [by destruct q5|]. split; [|by destruct q5].
  rewrite <- Hrates in Htarget. by destruct q5.
Qed.

Lemma search_run_ok (net : network) (query : string) (p p' : page) (u : unit) :
  search_run net query p = (Ok u, p') →
  statusEl p' = ready_status ∧ targetLayer p' ≠ None ∧ ratePanel p' = true.
Proof.
  unfold search_run. intros H.
  bind_inv H. clear Hm.
  destruct (negb (to_boolean a)); [done|].
  bind_inv H. clear Hm.
  bind_inv H. clear Hm.
  bind_inv H. clear Hm.
  destruct (negb (to_boolean a2)); [done|].
  bind_inv H. clear Hm.
  by eapply updateView_ok.
Qed.

Lemma blank_query (input : string) : trim input ≠ "" → String.eqb (trim input) "" = false.
Proof. intros H. by apply String.eqb_neq. Qed.

(** The search handler always returns: nothing it calls throws past it.
    A blank input changes nothing.  Any other input ends either ready,
    with the status inviting a click, a target layer drawn and the rate
    panel shown, or failed, with an error's message as the status, marked
    as an error and not as loading. *)
Theorem search_submit_ends_ready_or_failed (net : network) (input : string) (p : page) :
  let p' := snd (search_submit net input p) in
  fst (search_submit net input p) = Ok () ∧
  (trim input = "" → p' = p) ∧
  (trim input ≠ "" →
     (statusEl p' = ready_status ∧ targetLayer p' ≠ None ∧ ratePanel p' = true) ∨
     (∃ e, statusEl p' = Status (MessageOf e) true false)).
Proof.
  cbv zeta. unfold search_submit. cbv zeta.
  destruct (String.eqb (trim input) "") eqn:Hblank.
  { apply String.eqb_eq in Hblank. by repeat split. }
  apply String.eqb_neq in Hblank.
  unfold clearLayers, updateStatus, try_catch. munfold.
  set (p0 := set_rates false [] _).
  destruct (search_run net (trim input) p0) as [[[]|e] p1] eqn:Hrun; simpl.
  - split; [done|]. split; [done|]. intros _. left. by eapply search_run_ok.
  - split; [done|]. split; [done|]. intros _. right. exists e. by destruct p1.
Qed.

(** A search that fails at the geocoding step (the request is rejected,
    the response is not a success or not JSON, its body has no first
    candidate) ends on a cleared map: no target layer, no neighbour
    layer, the rate panel hidden, the error shown, and nothing sent
    after the one geocoding request. *)
Theorem failed_geocoding_leaves_map_cleared (net : network) (input : string) (p : page) :
  trim input ≠ "" →
  let query := trim input in
  let p' := snd (search_submit net input p) in
  match net (SearchPlace query) with
  | Rejected => p' = cleared_with FetchFailed [SearchPlace query] p
  | Reply res =>
      if ok res then
        match body res with
        | None => p' = cleared_with SyntaxError [SearchPlace query] p
        | Some data =>
            match get0 data with
            | Throw e => p' = cleared_with e [SearchPlace query] p
            | Ok place =>
                to_boolean place = false →
                p' = cleared_with (Error "No matching location found.")
                       [SearchPlace query] p
            end
        end
      else p' = cleared_with (Error "Geocoding failed. Please try again later.")
                  [SearchPlace query] p
  end.
Proof.
  intros Hblank%blank_query. cbv zeta.
  unfold search_submit. cbv zeta. rewrite Hblank.
  unfold clearLayers, updateStatus, try_catch, search_run, geocode, fetch, json.
  munfold. simpl.
  destruct (net (SearchPlace (trim input))) as [|[[] [data|]]]; simpl; try done.
  destruct (get0 data) as [place|e]; simpl; [|done].
  by intros ->.
Qed.

Lemma failed_geocoding_leaves_map_cleared_example :
  snd (search_submit (λ _, Rejected) "Austin" (initial_page None)) =
    cleared_with FetchFailed [SearchPlace "Austin"] (initial_page None).
Proof.
  refine (failed_geocoding_leaves_map_cleared (λ _, Rejected) "Austin"
            (initial_page None) _).
  discriminate.
Defined.

(** A search whose place carries no postcode and whose reverse lookup
    gives none (the response is not a success, or its address has no
    postcode) ends failed with "Could not determine a Zip Code for this
    location.", on a cleared map, after the geocoding request and the
    reverse lookup only: no boundary, rate or neighbour request is
    sent. *)
Theorem search_without_zip_stops_before_boundary (net : network) (input : string)
    (p : page) (data place : value) (lat lon : string) (res : response) :
  trim input ≠ "" →
  net (SearchPlace (trim input)) = Reply (Response true (Some data)) →
  get0 data = Ok place → to_boolean place = true →
  carried_postcode place = None →
  to_string (field place "lat") = Ok lat →
  to_string (field place "lon") = Ok lon →
  net (ReverseLookup lat lon) = Reply res →
  (ok res = false ∨
   ∃ d, ok res = true ∧ body res = Some d ∧ is_nullish d = false ∧
        to_boolean (field (field d "address") "postcode") = false) →
  snd (search_submit net input p) =
    cleared_with (Error "Could not determine a Zip Code for this location.")
      [SearchPlace (trim input); ReverseLookup lat lon] p.
Proof.
  intros Hblank%blank_query Hsearch Hfirst Hplace Hcarried Hlat Hlon Hreverse Hnone.
  pose proof (truthy_not_nullish place Hplace) as Hnn.
  unfold search_submit. cbv zeta. rewrite Hblank.
  unfold clearLayers, updateStatus, try_catch, search_run, geocode, fetch, json.
  munfold. simpl. rewrite Hsearch. simpl. rewrite Hfirst. simpl. rewrite Hplace. simpl.
  rewrite !(get_non_nullish place) by done. rsimpl.
  unfold parseFloat. rewrite Hlat, Hlon. rsimpl. simpl.
  assert (∀ q, resolveZip net place q = (Ok VNull, log_request (ReverseLookup lat lon) q))
    as Hresolve.
  { intros q. unfold resolveZip, fetch, json. munfold.
    unfold carried_postcode in Hcarried.
    rewrite (get_non_nullish place "address") by done.
    assert ((if to_boolean (field place "address")
             then get (field place "address") "postcode" else Ok VUndef) =
            Ok (if to_boolean (field place "address")
                then field (field place "address") "postcode" else VUndef)) as ->.
    { destruct (to_boolean (field place "address")) eqn:Ha; [|done].
      by rewrite get_non_nullish by by apply truthy_not_nullish. }
    assert (to_boolean (field place "address") &&
            to_boolean (if to_boolean (field place "address")
                        then field (field place "address") "postcode" else VUndef) = false)
      as ->.
    { destruct (to_boolean (field place "address")); [|done].
      simpl in *. by destruct (to_boolean (field (field place "address") "postcode")). }
    rewrite !(get_non_nullish place) by done. rsimpl. rewrite Hlat, Hlon.
    rewrite Hreverse. simpl.
    destruct Hnone as [Hok|(d & Hok & Hbody & Hd & Hpc)]; rewrite Hok; simpl; [done|].
    rewrite Hbody. simpl. rewrite (get_non_nullish d "address") by done.
    rewrite optional_postcode. unfold js_or. by rewrite Hpc. }
  rewrite Hresolve. simpl.
  unfold cleared_with, set_status, log_request, set_rates, set_surrounding, set_target.
  destruct p; simpl. by rewrite <- app_assoc.
Qed.

Lemma search_without_zip_stops_before_boundary_example :
  let net : network := λ r,
    match r with
    | SearchPlace _ => Reply (Response true (Some (VArr [austin_bare])))
    | _ => Reply (Response false None)
    end in
  snd (search_submit net "Austin" (initial_page None)) =
    cleared_with (Error "Could not determine a Zip Code for this location.")
      [SearchPlace "Austin"; ReverseLookup "30.27" "-97.74"] (initial_page None).
Proof.
  refine (search_without_zip_stops_before_boundary _ "Austin" (initial_page None)
            (VArr [austin_bare]) austin_bare "30.27" "-97.74" (Response false None)
            _ eq_refl eq_refl eq_refl eq_refl eq_refl eq_refl eq_refl (or_introl eq_refl)).
  discriminate.
Defined.

(** ** The requests of a view update *)

Lemma fetchZipBoundary_page (net : network) (zip : value) (z : string) (p : page) :
  to_string zip = Ok z →
  snd (fetchZipBoundary net zip p) = log_request (BoundaryOf z) p.
Proof.
  intros Hz. unfold fetchZipBoundary, fetch, json. munfold. rewrite Hz. simpl.
  destruct (net _) as [|[[] [data|]]]; simpl; try done.
  destruct (get0 data) as [first|]; simpl; [|done].
  by rewrite optional_geojson.
Qed.

Lemma fetchPerDiem_page (net : network) (zip : value) (z : string) (p : page) :
  to_string zip = Ok z →
  snd (fetchPerDiem net zip p) =
    log_request (RatesOf z (default "2025" (yearSelect p))) p.
Proof.
  intros Hz. unfold fetchPerDiem, try_catch, fetch, json. munfold. rewrite Hz. simpl.
  destruct (net _) as [|[[] [data|]]]; simpl; try done.
  destruct (raw_rates data) as [rawRates|e]; simpl; [|done].
  by destruct (normalizeRates rawRates).
Qed.

Lemma drawTarget_page (geojson : value) (center : coordinate * coordinate)
    (zip : value) (p : page) :
  sent (snd (drawTarget geojson center zip p)) = sent p ∧
  yearSelect (snd (drawTarget geojson center zip p)) = yearSelect p.
Proof. unfold drawTarget. destruct (to_boolean geojson); by destruct p. Qed.

(** A view update that completes has sent exactly three requests, in
    this order and all for the same postal code: the boundary, the rates
    (for the selected year) and the regional index around the centre. *)
Theorem updateView_requests_in_order (net : network) (lat lon : coordinate)
    (zip label : value) (p p' : page) :
  updateView net lat lon zip label p = (Ok (), p') →
  ∃ z, to_string zip = Ok z ∧
       sent p' = (sent p ++ [BoundaryOf z;
                             RatesOf z (default "2025" (yearSelect p));
                             PostalAreasAround 15000 lat lon])%list.
Proof.
  unfold updateView. cbv zeta. intros H.
  apply mbind_ok_inv in H as (u1 & q1 & ->%modify_inv & H).
  apply mbind_ok_inv in H as (l & q2 & [Hlabel ->]%lift_inv & H).
  apply mbind_ok_inv in H as (z & q3 & [Hzip ->]%lift_inv & H).
  apply mbind_ok_inv in H as (u2 & q4 & Hstatus & H).
  unfold updateStatus in Hstatus. apply modify_inv in Hstatus as ->.
  apply mbind_ok_inv in H as (g & q5 & Hboundary & H).
  apply (f_equal snd) in Hboundary.
  rewrite (fetchZipBoundary_page net zip z _ Hzip) in Hboundary. simpl in Hboundary.
  apply mbind_ok_inv in H as (u3 & q6 & Hdraw & H).
  pose proof (drawTarget_page g (lat, lon) zip q5) as [Hs Hy].
  rewrite Hdraw in Hs, Hy. simpl in Hs, Hy.
  apply mbind_ok_inv in H as (rates & q7 & Hrates & H).
  apply (f_equal snd) in Hrates.
  rewrite (fetchPerDiem_page net zip z _ Hzip) in Hrates. simpl in Hrates.
  apply mbind_ok_inv in H as ([] & q8 & Hshow & H).
  apply displayRates_returns_page in Hshow as (unique & items & _ & _ & _ & ->).
  apply mbind_ok_inv in H as (u4 & q9 & Hrender & H).
  pose proof (renderSurrounding_page net (lat, lon) zip (set_rates true items q7))
    as (zones & st & _ & Hpage).
  rewrite Hrender in Hpage. simpl in Hpage.
  unfold updateStatus in H. apply modify_inv in H as ->.
  exists z. split; [done|]. subst q9 q7 q5.
  rewrite Hy. destruct q6; simpl in *. subst. destruct p; simpl.
  by rewrite <- !app_assoc.
Qed.

Lemma updateView_requests_in_order_example :
  ∃ z, to_string (VStr "78701") = Ok z ∧
       sent (snd (updateView (services (Reply (Response false None)))
                    (ParsedFloat "30.27") (ParsedFloat "-97.74")
                    (VStr "78701") (VStr "Austin") (initial_page None))) =
         (sent (initial_page None) ++
            [BoundaryOf z; RatesOf z (default "2025" (yearSelect (initial_page None)));
             PostalAreasAround 15000 (ParsedFloat "30.27") (ParsedFloat "-97.74")])%list.
Proof.
  exact (updateView_requests_in_order (services (Reply (Response false None)))
           (ParsedFloat "30.27") (ParsedFloat "-97.74") (VStr "78701") (VStr "Austin")
           (initial_page None) _ eq_refl).
Defined.

(** When the boundary service answers with a response that is not a
    success, the view update stops there with its own error: the map is
    already centred on the place at zoom 11 and the status still shows
    the centring message, but no target layer is drawn and neither the
    rates nor the neighbours are requested. *)
Theorem updateView_stops_at_boundary_failure (net : network) (lat lon : coordinate)
    (z : string) (label : value) (l : string) (p : page) (res : response) :
  to_string label = Ok l →
  net (BoundaryOf z) = Reply res → ok res = false →
  updateView net lat lon (VStr z) label p =
    (Throw boundary_error,
     log_request (BoundaryOf z)
       (set_status
          (Status (Text ("Centering map on " +:+ l +:+ " (Zip " +:+ z +:+ ")...")) false true)
          (set_view (SetView (lat, lon) 11) p))).
Proof.
  intros Hl Hnet Hok.
  unfold updateView, updateStatus, fetchZipBoundary, fetch. cbv zeta. munfold.
  rewrite Hl. simpl. rewrite Hnet. simpl. by rewrite Hok.
Qed.

Lemma updateView_stops_at_boundary_failure_example :
  updateView (λ _, Reply (Response false None)) (ParsedFloat "30.27") (ParsedFloat "-97.74")
    (VStr "78701") (VStr "Austin") (initial_page None) =
    (Throw boundary_error,
     log_request (BoundaryOf "78701")
       (set_status
          (Status (Text ("Centering map on " +:+ "Austin" +:+ " (Zip " +:+ "78701" +:+ ")..."))
             false true)
          (set_view (SetView (ParsedFloat "30.27", ParsedFloat "-97.74") 11)
             (initial_page None)))).
Proof.
  exact (updateView_stops_at_boundary_failure (λ _, Reply (Response false None))
           (ParsedFloat "30.27") (ParsedFloat "-97.74") "78701" (VStr "Austin") "Austin"
           (initial_page None) (Response false None) eq_refl eq_refl eq_refl).
Defined.
